(** * Scrape-to-relational normalisation and idempotent upsert

    A shallow embedding of the three programs of the repository:
    - [tasks/DOUBAN_HOT.py]: Douban Top-N list scraper (parse, in-batch
      dedupe, movie upsert, dimension tables and association tables);
    - [tasks/BAIDU_HOT.py]: Baidu hot-search scraper (embedded JSON strategy,
      HTML fallback strategy, batched save);
    - [main.py]: administration of the demo table [test_users]: the
      duplicate reconciler [cmd_dedupe], and the commands that seed, insert,
      update, delete, count and renumber rows.

    Conventions.  Python [int] is [Z]; [str] is [string] (characters below
    128, so that [str.strip] and [str.isdigit] are the ASCII ones); [None] is
    [None] of an option type or [JNull] of a parsed JSON value; a Python
    [dict] produced by a parser with a fixed set of keys is a record; a
    [set] is a [gset]; an exception is a [Raise] result.  The MySQL server
    is modelled by the tables the [CREATE TABLE] statements of the sources
    declare, with the constraints that make a statement fail or skip a row
    ([NOT NULL], [UNIQUE], [PRIMARY KEY], [FOREIGN KEY], [AUTO_INCREMENT]).
    Column types are idealised: a string column holds any string and a
    numeric column any number, so that length limits, unsigned ranges,
    [DECIMAL] rounding and collations play no part; a stored value is the
    value that was passed, and two keys collide when they are equal.  The
    libraries the scrapers call ([requests], [bs4], [re], [json]) are the
    fields of a class [Scraper]: a page is seen through the queries the
    parsers make. *)

From Stdlib Require Import Ascii QArith.QArith_base.
From stdpp Require Import base list strings gmap sorting.
Local Open Scope Z_scope.

(** ** Python values, exceptions and a few built-ins *)
Module Py.

Inductive exn :=
| IntegrityError (errno : Z)     (* pymysql.err.IntegrityError *)
| ProgrammingError (errno : Z)   (* pymysql.err.ProgrammingError *)
| IndexError
| KeyError (key : string)
| AttributeError
| RequestException.              (* requests: timeout or raise_for_status *)

(** Values produced by [json.loads]; [null] is Python's [None]. *)
#[local] Unset Elimination Schemes.
Inductive value :=
| JNull
| JBool (b : bool)
| JInt (n : Z)
| JFloat (q : Q)
| JStr (s : string)
| JList (l : list value)
| JDict (d : list (string * value)).
#[local] Set Elimination Schemes.

(** Truth value of an object, as [or], [not] and [if] test it. *)
Definition truthy (v : value) : bool :=
  match v with
  | JNull => false
  | JBool b => b
  | JInt n => negb (n =? 0)
  | JFloat q => negb (Qnum q =? 0)
  | JStr s => negb (String.eqb s "")
  | JList l => match l with [] => false | _ => true end
  | JDict d => match d with [] => false | _ => true end
  end.

(** [a or b]: [a] when it is true, else [b]. *)
Definition or_ (a b : value) : value := if truthy a then a else b.

(** [d.get(k)] on the items of a dict, in insertion order. *)
Fixpoint get (d : list (string * value)) (k : string) : value :=
  match d with
  | [] => JNull
  | (k', v) :: d' => if String.eqb k' k then v else get d' k
  end.

(** [d[k]] guarded by [k in d]: [None] when the key is missing. *)
Fixpoint getitem (d : list (string * value)) (k : string) : option value :=
  match d with
  | [] => None
  | (k', v) :: d' => if String.eqb k' k then Some v else getitem d' k
  end.

(** [str.isspace] on one character below 128. *)
Definition isspace (c : ascii) : bool :=
  let n := Z.of_N (N_of_ascii c) in
  ((9 <=? n) && (n <=? 13)) || ((28 <=? n) && (n <=? 32)).

(** Stripping the characters that satisfy [p] from either end. *)
Fixpoint lstrip_by (p : ascii → bool) (s : string) : string :=
  match s with
  | EmptyString => EmptyString
  | String c s' => if p c then lstrip_by p s' else s
  end.

Fixpoint rstrip_by (p : ascii → bool) (s : string) : string :=
  match s with
  | EmptyString => EmptyString
  | String c s' =>
      match rstrip_by p s' with
      | EmptyString => if p c then EmptyString else String c EmptyString
      | r => String c r
      end
  end.

(** [s.strip()]. *)
Definition strip (s : string) : string := rstrip_by isspace (lstrip_by isspace s).

(** [s.strip(chars)]. *)
Definition strip_chars (chars s : string) : string :=
  let p c := existsb (Ascii.eqb c) (String.list_ascii_of_string chars) in
  rstrip_by p (lstrip_by p s).

(** [s.isdigit()] and [int(s)] on decimal digits. *)
Definition is_digit (c : ascii) : bool :=
  let n := Z.of_N (N_of_ascii c) in (48 <=? n) && (n <=? 57).

Definition isdigit (s : string) : bool :=
  match s with
  | EmptyString => false
  | _ => forallb is_digit (String.list_ascii_of_string s)
  end.

Definition int (s : string) : Z :=
  fold_left (λ acc c, 10 * acc + (Z.of_N (N_of_ascii c) - 48))
    (String.list_ascii_of_string s) 0.

(** [s.split(sep)] for a separator of one character. *)
Fixpoint str_split (sep : ascii) (s : string) : list string :=
  match s with
  | EmptyString => [EmptyString]
  | String c s' =>
      if Ascii.eqb c sep then EmptyString :: str_split sep s'
      else match str_split sep s' with
           | [] => [String c EmptyString]
           | p :: ps => String c p :: ps
           end
  end.

(** [l[:n]]: a negative [n] counts from the end. *)
Definition slice_to {A} (l : list A) (n : Z) : list A :=
  if 0 <=? n then take (Z.to_nat n) l
  else take (Z.to_nat (Z.of_nat (length l) + n)) l.

(** [range(stop)]. *)
Definition range (stop : Z) : list Z := Z.of_nat <$> seq 0 (Z.to_nat stop).

(** [range(0, stop, step)] for a positive [step]. *)
Definition range_step (stop step : Z) : list Z :=
  (λ j : nat, Z.of_nat j * step) <$> seq 0 (Z.to_nat ((stop + step - 1) `div` step)).

End Py.
Export Py.

Global Instance Q_eq_dec : EqDecision Q.
Proof. solve_decision. Defined.

Global Instance exn_eq_dec : EqDecision exn.
Proof. solve_decision. Defined.

Global Instance value_eq_dec : EqDecision value.
Proof.
  unfold EqDecision, Decision.
  fix go 1. intros a b.
  destruct a as [|x|x|x|x|x|x], b as [|y|y|y|y|y|y];
    try (right; discriminate); try (left; reflexivity).
  - destruct (decide (x = y)); [left | right]; congruence.
  - destruct (decide (x = y)); [left | right]; congruence.
  - destruct (decide (x = y)); [left | right]; congruence.
  - destruct (decide (x = y)); [left | right]; congruence.
  - destruct (@list_eq_dec _ go x y); [left | right]; congruence.
  - destruct (@list_eq_dec _ (@prod_eq_dec _ _ _ go) x y);
      [left | right]; congruence.
Defined.

(** ** The store: tables, statements and their effect *)
Module Store.

(** A table with an [AUTO_INCREMENT] key: its rows in insertion order and
    the next value of the counter. *)
Record table (R : Type) := Table { rows : list R; auto_increment : Z }.
Arguments Table {R} _ _.
Arguments rows {R} _.
Arguments auto_increment {R} _.

(** [douban_movies] ([CREATE_MOVIES]); [grabbed_date] is generated. *)
Record movie_row := MovieRow {
  mv_id : Z;
  mv_douban_id : string;
  mv_rank_no : Z;
  mv_title : string;
  mv_original_title : option string;
  mv_year : option Z;
  mv_rating : option Q;
  mv_votes : option Z;
  mv_director : option string;
  mv_url : option string;
  mv_poster_url : option string;
  mv_summary : option string;
  mv_grabbed_at : Z
}.

(** [douban_genre], [douban_country] ([CREATE_GENRE], [CREATE_COUNTRY]). *)
Record dim_row := DimRow { dim_id : Z; dim_name : string }.

(** [douban_movie_genre], [douban_movie_country]: rows [(movie_id, fk)],
    the name of the second column and the dimension table it references. *)
Record map_table := MapTable {
  map_fk_col : string;
  map_references : string;
  map_rows : list (Z * Z)
}.

(** [test_users] ([TABLE_SQL] of main.py). *)
Record user_row := UserRow {
  user_id : Z;
  user_name : string;
  user_email : string;
  user_created_at : Z
}.

(** [baidu_hotsearch] ([CREATE_TABLE_SQL]); [grabbed_date] is generated. *)
Record hot_row := HotRow {
  hot_id : Z;
  hot_rank_no : Z;
  hot_title : string;
  hot_url : value;
  hot_grabbed_at : Z
}.

(** [DATE(grabbed_at)], a [datetime] being a number of seconds. *)
Definition DATE (t : Z) : Z := t `div` 86400.

Global Instance movie_row_eq_dec : EqDecision movie_row.
Proof. solve_decision. Defined.
Global Instance dim_row_eq_dec : EqDecision dim_row.
Proof. solve_decision. Defined.
Global Instance user_row_eq_dec : EqDecision user_row.
Proof. solve_decision. Defined.
Global Instance hot_row_eq_dec : EqDecision hot_row.
Proof. solve_decision. Defined.

(** The statements the programs send, with their parameters. *)
Inductive stmt :=
| UPSERT_MOVIE_SQL (douban_id : option string) (rank_no : option Z)
    (title original_title : option string) (year : option Z)
    (rating : option Q) (votes : option Z) (director url : option string)
    (grabbed_at : Z)
  (* INSERT INTO douban_movies (...) VALUES (...) ON DUPLICATE KEY UPDATE ... *)
| SELECT_MOVIE_ID (douban_id : option string)
  (* SELECT id FROM douban_movies WHERE douban_id=%s *)
| UPSERT_DIM (dim_table name : string)
  (* INSERT INTO {dim_table}(name) VALUES (%s)
     ON DUPLICATE KEY UPDATE id = LAST_INSERT_ID(id), name = VALUES(name) *)
| INSERT_IGNORE_MAP (map_table map_fk_col : string) (movie_id dim_id : Z)
  (* INSERT IGNORE INTO {map_table}(movie_id, {map_fk_col}) VALUES (%s, %s) *)
| SELECT_DUPLICATE_USERS
  (* SELECT DISTINCT t1.id FROM test_users t1 JOIN test_users t2
     ON t1.email = t2.email AND t1.id > t2.id *)
| DELETE_USERS_IN (ids : list Z)
  (* DELETE FROM test_users WHERE id IN (%s,...,%s) *)
| UPSERT_HOT (rank_no : Z) (title : string) (url : value) (grabbed_at : Z).
  (* INSERT INTO baidu_hotsearch (rank_no, title, url, grabbed_at) VALUES (...)
     ON DUPLICATE KEY UPDATE url = VALUES(url), grabbed_at = VALUES(grabbed_at) *)

Record db := Db {
  douban_movies : table movie_row;
  dims : gmap string (table dim_row);
  maps : gmap string map_table;
  test_users : table user_row;
  baidu_hotsearch : table hot_row;
  log : list stmt            (* every statement sent, oldest first *)
}.

(** What the server answers: affected rows, the insert id of the OK packet,
    the rows of a result set (here every selected column is an integer). *)
Record outcome := Outcome {
  affected : Z;
  insert_id : Z;
  fetched : list (gmap string Z)
}.

Definition with_movies (s : db) (t : table movie_row) : db :=
  Db t (dims s) (maps s) (test_users s) (baidu_hotsearch s) (log s).
Definition with_dims (s : db) (d : gmap string (table dim_row)) : db :=
  Db (douban_movies s) d (maps s) (test_users s) (baidu_hotsearch s) (log s).
Definition with_maps (s : db) (m : gmap string map_table) : db :=
  Db (douban_movies s) (dims s) m (test_users s) (baidu_hotsearch s) (log s).
Definition with_users (s : db) (t : table user_row) : db :=
  Db (douban_movies s) (dims s) (maps s) t (baidu_hotsearch s) (log s).
Definition with_hot (s : db) (t : table hot_row) : db :=
  Db (douban_movies s) (dims s) (maps s) (test_users s) t (log s).
Definition with_log (s : db) (l : list stmt) : db :=
  Db (douban_movies s) (dims s) (maps s) (test_users s) (baidu_hotsearch s) l.

End Store.
Export Store.

(** ** What the server does with each statement *)
Module MySQL.

(** [INSERT ... ON DUPLICATE KEY UPDATE] on [douban_movies], the three
    [NOT NULL] parameters being present: the row that holds the unique key
    [uk_douban] is overwritten in place (it keeps [id], [poster_url] and
    [summary]); without such a row a new one takes the next [id].  The
    counter advances either way (InnoDB reserves the value before it sees
    the duplicate).  An update that changes the row counts 2 affected rows. *)
Definition upsert_movie_row (t : table movie_row) (k : string) (r : Z)
    (ti : string) (ot : option string) (y : option Z) (ra : option Q)
    (v : option Z) (d u : option string) (g : Z) : outcome * table movie_row :=
  match list_find (λ row, mv_douban_id row = k) (rows t) with
  | Some (i, old) =>
      let new := MovieRow (mv_id old) k r ti ot y ra v d u
                   (mv_poster_url old) (mv_summary old) g in
      (Outcome (if decide (new = old) then 0 else 2) 0 [],
       Table (<[i:=new]> (rows t)) (auto_increment t + 1))
  | None =>
      let new := MovieRow (auto_increment t) k r ti ot y ra v d u None None g in
      (Outcome 1 (auto_increment t) [],
       Table (rows t ++ [new]) (auto_increment t + 1))
  end.

(** The dimension upsert: a row named [name] keeps its [id], which
    [LAST_INSERT_ID(id)] makes the insert id of the statement; a new name
    takes the next [id]. *)
Definition upsert_dim_row (t : table dim_row) (name : string)
    : outcome * table dim_row :=
  match list_find (λ row, dim_name row = name) (rows t) with
  | Some (_, old) =>
      (Outcome 0 (dim_id old) [], Table (rows t) (auto_increment t + 1))
  | None =>
      (Outcome 1 (auto_increment t) [],
       Table (rows t ++ [DimRow (auto_increment t) name]) (auto_increment t + 1))
  end.

(** [INSERT IGNORE] into an association table: a row whose primary key
    [(movie_id, fk)] exists, or whose parent rows do not, is skipped. *)
Definition insert_ignore_map (s : db) (m : map_table) (movie_id fk : Z)
    : outcome * map_table :=
  let parents := default [] (rows <$> dims s !! map_references m) in
  if decide ((movie_id, fk) ∈ map_rows m) then (Outcome 0 0 [], m)
  else if decide (movie_id ∈ mv_id <$> rows (douban_movies s)
                  ∧ fk ∈ dim_id <$> parents)
  then (Outcome 1 0 [],
        MapTable (map_fk_col m) (map_references m) (map_rows m ++ [(movie_id, fk)]))
  else (Outcome 0 0 [], m).

(** The join condition of [cmd_dedupe]: some row [t2] has the email of
    [t1] and a smaller id. *)
Definition loser (l : list user_row) (t1 : user_row) : Prop :=
  Exists (λ t2, user_email t1 = user_email t2 ∧ user_id t1 > user_id t2) l.

Global Instance loser_dec l t1 : Decision (loser l t1).
Proof. unfold loser. apply _. Defined.

(** [SELECT DISTINCT t1.id] over the self-join, in table order. *)
Definition duplicate_users (t : table user_row) : list Z :=
  remove_dups (user_id <$> filter (loser (rows t)) (rows t)).

(** [DELETE ... WHERE id IN (ids)]: the affected rows are the deleted ones. *)

Definition delete_users_in (t : table user_row) (ids : list Z)
    : outcome * table user_row :=
  let kept := filter (λ r, user_id r ∉ ids) (rows t) in
  (Outcome (Z.of_nat (length (rows t)) - Z.of_nat (length kept)) 0 [],
   Table kept (auto_increment t)).

(** The hot-search upsert: the unique key is [(title, grabbed_date)]; on a
    duplicate only [url] and [grabbed_at] are overwritten. *)
Definition upsert_hot_row (t : table hot_row) (r : Z) (ti : string)
    (u : value) (g : Z) : outcome * table hot_row :=
  match list_find (λ row, hot_title row = ti ∧ DATE (hot_grabbed_at row) = DATE g)
          (rows t) with
  | Some (i, old) =>
      let new := HotRow (hot_id old) (hot_rank_no old) ti u g in
      (Outcome (if decide (new = old) then 0 else 2) 0 [],
       Table (<[i:=new]> (rows t)) (auto_increment t + 1))
  | None =>
      (Outcome 1 (auto_increment t) [],
       Table (rows t ++ [HotRow (auto_increment t) r ti u g]) (auto_increment t + 1))
  end.

(** Error numbers: 1048 column cannot be null, 1146 no such table,
    1054 unknown column, 1064 syntax error (an empty [IN ()] list). *)
Definition exec (q : stmt) (s : db) : exn + (outcome * db) :=
  match q with
  | UPSERT_MOVIE_SQL (Some k) (Some r) (Some ti) ot y ra v d u g =>
      let '(o, t) := upsert_movie_row (douban_movies s) k r ti ot y ra v d u g in
      inr (o, with_movies s t)
  | UPSERT_MOVIE_SQL _ _ _ _ _ _ _ _ _ _ => inl (IntegrityError 1048)
  | SELECT_MOVIE_ID (Some k) =>
      inr (Outcome 0 0 ((λ row, {[ "id" := mv_id row ]}) <$>
             filter (λ row, mv_douban_id row = k) (rows (douban_movies s))), s)
  | SELECT_MOVIE_ID None => inr (Outcome 0 0 [], s)
  | UPSERT_DIM dim_table name =>
      match dims s !! dim_table with
      | Some t =>
          let '(o, t') := upsert_dim_row t name in
          inr (o, with_dims s (<[dim_table := t']> (dims s)))
      | None => inl (ProgrammingError 1146)
      end
  | INSERT_IGNORE_MAP map_table col movie_id fk =>
      match maps s !! map_table with
      | Some m =>
          if decide (col = map_fk_col m) then
            let '(o, m') := insert_ignore_map s m movie_id fk in
            inr (o, with_maps s (<[map_table := m']> (maps s)))
          else inl (ProgrammingError 1054)
      | None => inl (ProgrammingError 1146)
      end
  | SELECT_DUPLICATE_USERS =>
      inr (Outcome 0 0 ((λ i, {[ "id" := i ]}) <$> duplicate_users (test_users s)), s)
  | DELETE_USERS_IN [] => inl (ProgrammingError 1064)
  | DELETE_USERS_IN ids =>
      let '(o, t) := delete_users_in (test_users s) ids in
      inr (o, with_users s t)
  | UPSERT_HOT r ti u g =>
      let '(o, t) := upsert_hot_row (baidu_hotsearch s) r ti u g in
      inr (o, with_hot s t)
  end.

End MySQL.

(** ** The gateway [MySqlHelper] *)
Module MySqlHelper.

(** A call either returns a value or raises; both leave a store behind. *)
Inductive result (A : Type) :=
| Ok (a : A) (s : db)
| Raise (e : exn) (s : db).
Arguments Ok {A} _ _.
Arguments Raise {A} _ _.

Definition M (A : Type) : Type := db → result A.

Global Instance M_ret : MRet M := λ A a s, Ok a s.
Global Instance M_bind : MBind M := λ A B f c s,
  match c s with
  | Ok a s' => f a s'
  | Raise e s' => Raise e s'
  end.

Definition raise {A} (e : exn) : M A := λ s, Raise e s.

(** One round trip: the statement is logged, then executed; a failed
    statement changes no table. *)
Definition send (q : stmt) : M outcome := λ s,
  let s1 := with_log s (log s ++ [q]) in
  match MySQL.exec q s1 with
  | inr (o, s2) => Ok o s2
  | inl e => Raise e s1
  end.

(** Modelled from the spec: the module mysql_helper is not among the
    sources.  "A parameterized single-statement execute returning
    affected-row count". *)
Definition execute_non_query (q : stmt) : M Z :=
  o ← send q; mret (affected o).

(** Modelled from the spec: mysql_helper is missing.  "A parameterized
    query returning a sequence of rows as name-value mappings". *)
Definition execute_query (q : stmt) : M (list (gmap string Z)) :=
  o ← send q; mret (fetched o).

(** Modelled from the spec: mysql_helper is missing.  "A scoped transaction
    boundary with explicit commit/rollback": the body's statements are kept
    when it returns and undone when it raises. *)
Definition _get_cursor {A} (body : M A) : M A := λ s,
  match body s with
  | Ok a s' => Ok a s'
  | Raise e s' => Raise e (with_log s (log s'))
  end.

(** [cur.execute(q)], the cursor then holding [cur.lastrowid]. *)
Definition cur_execute (q : stmt) : M outcome := send q.
Definition lastrowid (o : outcome) : Z := insert_id o.

(** Modelled from the spec: mysql_helper is missing.  "A batched multi-row
    insert": one statement per parameter tuple inside one transaction; the
    affected-row counts add up. *)
Fixpoint execute_many_loop (qs : list stmt) (total : Z) : M Z :=
  match qs with
  | [] => mret total
  | q :: qs' => o ← send q; execute_many_loop qs' (total + affected o)
  end.
Definition execute_many (qs : list stmt) : M Z :=
  _get_cursor (execute_many_loop qs 0).

(** [row[i][k]] on a result set. *)
Definition fetch_field (rs : list (gmap string Z)) (i : nat) (k : string) : M Z :=
  match rs !! i with
  | None => raise IndexError
  | Some r => match r !! k with
              | None => raise (KeyError k)
              | Some v => mret v
              end
  end.

(** [[row[k] for row in rs]]. *)
Definition column (rs : list (gmap string Z)) (k : string) : M (list Z) :=
  match mapM (λ r : gmap string Z, r !! k) rs with
  | Some l => mret l
  | None => raise (KeyError k)
  end.

(** The store a call leaves behind, whether it returned or raised. *)
Definition final {A} (r : result A) : db :=
  match r with
  | Ok _ s => s
  | Raise _ s => s
  end.

(** The constraints the schema declares, as properties of a store: the
    unique keys on [douban_id] and on dimension names, the primary keys of
    the association tables and of [test_users], and the foreign keys of
    the association tables. *)
Record consistent (s : db) : Prop := Consistent {
  uk_douban_id : NoDup (mv_douban_id <$> rows (douban_movies s));
  uk_dim_name : ∀ dim_table t,
    dims s !! dim_table = Some t → NoDup (dim_name <$> rows t);
  pk_map : ∀ map_table m, maps s !! map_table = Some m → NoDup (map_rows m);
  fk_map : ∀ map_table m movie_id fk,
    maps s !! map_table = Some m → (movie_id, fk) ∈ map_rows m →
    movie_id ∈ mv_id <$> rows (douban_movies s)
    ∧ ∃ t, dims s !! map_references m = Some t ∧ fk ∈ dim_id <$> rows t;
  pk_test_users : NoDup (user_id <$> rows (test_users s))
}.

(** A call that keeps the constraints, however it ends. *)
Definition preserves {A} (c : M A) : Prop :=
  ∀ s, consistent s → consistent (final (c s)).

End MySqlHelper.
Export MySqlHelper.

(** ** tasks/DOUBAN_HOT.py *)
Module Douban.

(** One parsed movie card, the dict [parse_list] builds. *)
Record item := Item {
  rank_no : option Z;
  douban_id : option string;
  title : string;
  original_title : option string;
  year : option Z;
  rating : option Q;
  votes : option Z;
  director : option string;
  countries : list string;
  genres : list string;
  url : string
}.

(** One [div.item] of a list page, as the queries of [parse_list] see it;
    every text is what [get_text(strip=True)] returns unless said otherwise. *)
Record card := Card {
  em : option string;                      (* div.select_one("em") *)
  hd_a : option (option string * string);  (* div.select_one("div.hd a"): href, text *)
  title_spans : list string;               (* div.select("span.title") *)
  other : option string;                   (* div.select_one("span.other") *)
  rating_num : option string;              (* div.select_one("span.rating_num") *)
  votes_span : option string;              (* the span that holds the vote count: get_text() *)
  bd_p : option string                     (* div.select_one("div.bd p"): get_text("\n", strip=True) *)
}.

(** What the program takes from [requests], [bs4], [re] and [float]. *)
Class Scraper := {
  fetch_list_page : Z → exn + string;      (* raises on timeout or error status *)
  select_items : string → list card;       (* BeautifulSoup(html, "lxml").select("div.item") *)
  subject_id : string → option string;     (* the digits of the first /subject/digits/ in the url *)
  float : string → option Q;               (* float(s), None standing for ValueError *)
  votes_of : string → option Z;            (* int of the first run of digits and commas, commas removed *)
  director_of : string → string;           (* the director in the first line of the info block *)
  meta_of : string → option Z * list string * list string
                                           (* year, countries, genres of its second line *)
}.

Definition newline : ascii := ascii_of_N 10.

(** The body of the loop of [parse_list]; [None] stands for [continue]. *)
Definition parse_card `{Scraper} (div : card) : exn + option item :=
  let rank_no :=
    match em div with
    | Some t => if isdigit t then Some (int t) else None
    | None => None
    end in
  match hd_a div with
  | None => inr None
  | Some (None, _) => inl (KeyError "href")
  | Some (Some url, a_text) =>
      let douban_id := subject_id url in
      let title := match title_spans div with t :: _ => t | [] => a_text end in
      let original_title :=
        match title_spans div with
        | _ :: t2 :: _ => if decide (t2 = "") then None else Some (strip_chars " /" t2)
        | _ => strip_chars " /" <$> other div
        end in
      let rating := rating_num div ≫= float in
      let votes := votes_span div ≫= votes_of in
      let info := default "" (bd_p div) in
      let parts := str_split newline info in
      let director := director_of <$> head parts in
      let '(year, countries, genres) :=
        match parts with
        | _ :: p1 :: _ => meta_of p1
        | _ => (None, [], [])
        end in
      inr (Some (Item rank_no douban_id title original_title year rating votes
                   director countries genres url))
  end.

Fixpoint parse_cards `{Scraper} (divs : list card) (items : list item)
    : exn + list item :=
  match divs with
  | [] => inr items
  | div :: divs' =>
      match parse_card div with
      | inl e => inl e
      | inr None => parse_cards divs' items
      | inr (Some it) => parse_cards divs' (items ++ [it])
      end
  end.

(** [parse_list(html)]. *)
Definition parse_list `{Scraper} (html : string) : exn + list item :=
  parse_cards (select_items html) [].

(** The key of the in-batch dedupe,
    [it.get("douban_id") or (it["title"], it.get("year"))]. *)
Inductive key :=
| KeyId (douban_id : string)
| KeyTitleYear (title : string) (year : option Z).

Global Instance key_eq_dec : EqDecision key.
Proof. solve_decision. Defined.

Global Instance key_countable : Countable key.
Proof.
  refine (inj_countable'
    (λ k, match k with KeyId i => inl i | KeyTitleYear t y => inr (t, y) end)
    (λ x, match x with inl i => KeyId i | inr (t, y) => KeyTitleYear t y end) _).
  by intros [].
Defined.

Definition dedupe_key (it : item) : key :=
  match douban_id it with
  | Some i => if decide (i = "") then KeyTitleYear (title it) (year it) else KeyId i
  | None => KeyTitleYear (title it) (year it)
  end.

(** One turn of the dedupe loop on [(seen, uniq)]. *)
Definition dedupe_step (st : gset key * list item) (it : item)
    : gset key * list item :=
  let key := dedupe_key it in
  if decide (key ∈ st.1) then st else ({[ key ]} ∪ st.1, st.2 ++ [it]).

Definition dedupe (all_items : list item) : list item :=
  (foldl dedupe_step (∅, []) all_items).2.

(** [x["rank_no"] or 9999]. *)
Definition sort_key (x : item) : Z :=
  match rank_no x with
  | Some r => if r =? 0 then 9999 else r
  | None => 9999
  end.

(** The order the sort establishes. *)
Definition rank_le (a b : item) : Prop := sort_key a ≤ sort_key b.


(** [list.sort(key=sort_key)] is stable and so is this insertion sort: an
    element goes before the first later one whose key is not smaller. *)
Fixpoint insert_sorted (x : item) (l : list item) : list item :=
  match l with
  | [] => [x]
  | y :: l' => if sort_key x <=? sort_key y then x :: l else y :: insert_sorted x l'
  end.

Fixpoint sort (l : list item) : list item :=
  match l with
  | [] => []
  | x :: l' => insert_sorted x (sort l')
  end.

(** The end of [crawl_top_n]: dedupe, sort, cut to [n]. *)
Definition top_n (all_items : list item) (n : Z) : list item :=
  slice_to (sort (dedupe all_items)) n.

(** The page loop of [crawl_top_n]; the pause between pages has no effect
    on the result. *)
Fixpoint crawl_pages `{Scraper} (starts : list Z) (all_items : list item)
    : exn + list item :=
  match starts with
  | [] => inr all_items
  | start :: starts' =>
      match fetch_list_page start with
      | inl e => inl e
      | inr html =>
          match parse_list html with
          | inl e => inl e
          | inr page_items => crawl_pages starts' (all_items ++ page_items)
          end
      end
  end.

(** [crawl_top_n(n)]. *)
Definition crawl_top_n `{Scraper} (n : Z) : exn + list item :=
  let pages := (n + 24) `div` 25 in
  match crawl_pages ((λ i, i * 25) <$> range pages) [] with
  | inl e => inl e
  | inr all_items => inr (top_n all_items n)
  end.

(** The store right after [ensure_schema] on an empty database. *)
Definition schema : db :=
  Db (Table [] 1)
     {[ "douban_genre" := Table [] 1; "douban_country" := Table [] 1 ]}
     {[ "douban_movie_genre" := MapTable "genre_id" "douban_genre" [];
        "douban_movie_country" := MapTable "country_id" "douban_country" [] ]}
     (Table [] 1) (Table [] 1) [].

(** [upsert_movie(db, m)]; [now] is what [datetime.datetime.now()] gives. *)
Definition upsert_movie (now : Z) (m : item) : M Z :=
  _ ← execute_non_query (UPSERT_MOVIE_SQL
         (douban_id m) (rank_no m) (Some (title m)) (original_title m)
         (year m) (rating m) (votes m) (director m) (Some (url m)) now);
  row ← execute_query (SELECT_MOVIE_ID (douban_id m));
  fetch_field row 0 "id".

(** The cleaning loop of [ensure_dim_and_map]: one step on [(seen, clean_names)]. *)
Definition clean_step (st : gset string * list string) (n : option string)
    : gset string * list string :=
  let n := strip (default "" n) in
  if decide (n = "") then st
  else if decide (n ∈ st.1) then st
  else ({[ n ]} ∪ st.1, st.2 ++ [n]).

Definition clean_names (names : option (list (option string))) : list string :=
  (foldl clean_step (∅, []) (default [] names)).2.

(** The body of the [for name in clean_names] loop. *)
Definition ensure_one (movie_id : Z) (dim_table map_table map_fk_col name : string)
    : M unit :=
  o ← cur_execute (UPSERT_DIM dim_table name);
  let dim_id := lastrowid o in
  _ ← cur_execute (INSERT_IGNORE_MAP map_table map_fk_col movie_id dim_id);
  mret ().

Fixpoint for_each {A} (l : list A) (body : A → M unit) : M unit :=
  match l with
  | [] => mret ()
  | x :: l' => _ ← body x; for_each l' body
  end.

(** [ensure_dim_and_map(db, movie_id, names, dim_table, map_table, map_fk_col)]. *)
Definition ensure_dim_and_map (movie_id : Z) (names : option (list (option string)))
    (dim_table map_table map_fk_col : string) : M unit :=
  match clean_names names with
  | [] => mret ()
  | cleaned =>
      _get_cursor (for_each cleaned (ensure_one movie_id dim_table map_table map_fk_col))
  end.

(** The unique key [uk_douban] holds in a store. *)
Definition uk_douban (s : db) : Prop :=
  NoDup (mv_douban_id <$> rows (douban_movies s)).

(** The rows of [douban_movies] stored under a natural key. *)
Definition movies_with (k : string) (s : db) : list movie_row :=
  filter (λ row, mv_douban_id row = k) (rows (douban_movies s)).



(** A row holds the attributes of [m] as written at time [now]. *)
Definition stored_as (m : item) (now : Z) (row : movie_row) : Prop :=
  douban_id m = Some (mv_douban_id row)
  ∧ rank_no m = Some (mv_rank_no row)
  ∧ mv_title row = title m
  ∧ mv_original_title row = original_title m
  ∧ mv_year row = year m
  ∧ mv_rating row = rating m
  ∧ mv_votes row = votes m
  ∧ mv_director row = director m
  ∧ mv_url row = Some (url m)
  ∧ mv_grabbed_at row = now.

End Douban.


(** ** tasks/BAIDU_HOT.py *)
Module Baidu.

Definition BAIDU_REALTIME_URL : string :=
  "https://top.baidu.com/board?platform=pc&tab=realtime".

(** One hot-search entry, the dict both strategies build. *)
Record hot_item := HotItem { rank : Z; title : string; url : value }.

(** One card of the rendered board, as [parse_from_html] queries it. *)
Record card := Card {
  ellipsis : option string;    (* card.select_one(".c-single-text-ellipsis"): get_text(strip=True) *)
  first_a : option string;     (* card.find("a"): get_text(strip=True) *)
  first_href : option string   (* card.find("a", href=True): its href *)
}.

(** What the program takes from [requests], [re], [json], [bs4], [urllib]. *)
Class Scraper := {
  fetch_html : exn + string;               (* raises on timeout or error status *)
  search_initial_state : string → option string;
    (* group 1 of the __INITIAL_STATE__ pattern searched in the page *)
  loads : string → option value;           (* json.loads; None stands for any exception *)
  select_cards : string → list card;
    (* soup.select(".category-wrap_iQLoo .content_1YWBm") *)
  urljoin : string → string → string
}.

(** [dig(obj)] of [parse_from_initial_state]. *)
Fixpoint dig (obj : value) : option (list value) :=
  match obj with
  | JDict d =>
      match getitem d "items" with
      | Some (JList l) => Some l
      | _ =>
          (fix values (d : list (string * value)) : option (list value) :=
             match d with
             | [] => None
             | (_, v) :: d' =>
                 match dig v with
                 | Some r => Some r
                 | None => values d'
                 end
             end) d
      end
  | JList l =>
      (fix elements (l : list value) : option (list value) :=
         match l with
         | [] => None
         | v :: l' =>
             match dig v with
             | Some r => Some r
             | None => elements l'
             end
         end) l
  | _ => None
  end.

(** The search in the words of the specification, first reading: every
    list stored under a key named "items", in depth-first order (the key
    of a dict itself before what its values hold, the values in insertion
    order, the elements of a list in order). *)
Fixpoint items_lists (obj : value) : list (list value) :=
  match obj with
  | JDict d =>
      match getitem d "items" with
      | Some (JList l) => [l]
      | _ => []
      end ++
      (fix values (d : list (string * value)) : list (list value) :=
         match d with
         | [] => []
         | (_, v) :: d' => items_lists v ++ values d'
         end) d
  | JList l =>
      (fix elements (l : list value) : list (list value) :=
         match l with
         | [] => []
         | v :: l' => items_lists v ++ elements l'
         end) l
  | _ => []
  end.

(** The search in the words of the specification, second reading: "the
    first array found by depth-first search", whatever key holds it. *)
Fixpoint first_array (obj : value) : option (list value) :=
  match obj with
  | JDict d =>
      (fix values (d : list (string * value)) : option (list value) :=
         match d with
         | [] => None
         | (_, v) :: d' =>
             match first_array v with
             | Some r => Some r
             | None => values d'
             end
         end) d
  | JList l => Some l
  | _ => None
  end.

(** The body of the [enumerate(raw, start=1)] loop; [None] stands for
    [continue].  An entry that is no dict has no [get], and a value that is
    no string has no [strip]. *)
Definition parse_entry (i : Z) (it : value) : exn + option hot_item :=
  match it with
  | JDict d =>
      match or_ (get d "word") (or_ (get d "query") (or_ (get d "title")
              (or_ (get d "content") (JStr "")))) with
      | JStr t =>
          let title := strip t in
          if decide (title = "") then inr None
          else
            let url := or_ (get d "url") (or_ (get d "appUrl") (get d "redirectUrl")) in
            inr (Some (HotItem i title url))
      | _ => inl AttributeError
      end
  | _ => inl AttributeError
  end.

Fixpoint parse_entries (i : Z) (raw : list value) (items : list hot_item)
    : exn + list hot_item :=
  match raw with
  | [] => inr items
  | it :: raw' =>
      match parse_entry i it with
      | inl e => inl e
      | inr None => parse_entries (i + 1) raw' items
      | inr (Some item) => parse_entries (i + 1) raw' (items ++ [item])
      end
  end.

(** [parse_from_initial_state(html)]; the inner [None] is Python's. *)
Definition parse_from_initial_state `{Scraper} (html : string)
    : exn + option (list hot_item) :=
  match search_initial_state html with
  | None => inr None
  | Some text =>
      match loads text with
      | None => inr None
      | Some data =>
          match dig data with
          | None | Some [] => inr None
          | Some raw =>
              match parse_entries 1 raw [] with
              | inl e => inl e
              | inr items => inr (Some items)
              end
          end
      end
  end.

(** The loop of [parse_from_html] on [(rank, out)]. *)
Fixpoint parse_cards `{Scraper} (cards : list card) (rank : Z) (out : list hot_item)
    : list hot_item :=
  match cards with
  | [] => out
  | card :: cards' =>
      let title_el := match ellipsis card with Some t => Some t | None => first_a card end in
      let title := strip (default "" title_el) in
      if decide (title = "") then parse_cards cards' rank out
      else
        let url := match first_href card with
                   | Some href => JStr (urljoin BAIDU_REALTIME_URL href)
                   | None => JNull
                   end in
        parse_cards cards' (rank + 1) (out ++ [HotItem rank title url])
  end.

(** [parse_from_html(html)]. *)
Definition parse_from_html `{Scraper} (html : string) : list hot_item :=
  parse_cards (select_cards html) 1 [].

(** [get_top_n(n)]; [x or []] turns [None] into the empty list. *)
Definition get_top_n `{Scraper} (n : Z) : exn + list hot_item :=
  match fetch_html with
  | inl e => inl e
  | inr html =>
      match parse_from_initial_state html with
      | inl e => inl e
      | inr r =>
          let items := default [] r in
          let items := if Z.of_nat (length items) <? n then parse_from_html html
                       else items in
          inr (slice_to items n)
      end
  end.

(** Ranks grow along a list of entries. *)
Definition rank_lt (a b : hot_item) : Prop := rank a < rank b.

(** [save_items(db, items)]; [now] is what [datetime.datetime.now()] gives. *)
Definition save_items (now : Z) (items : list hot_item) : M Z :=
  let params := (λ it, UPSERT_HOT (rank it) (title it) (url it) now)
                  <$> filter (λ it, title it ≠ "") items in
  match params with
  | [] => mret 0
  | _ => execute_many params
  end.

End Baidu.

(** ** main.py: the reconciler of duplicate emails *)
Module Main.

Definition CHUNK : Z := 500.

(** What the command prints: "No duplicates." or "Removed duplicates: n". *)
Inductive printed :=
| NoDuplicates
| RemovedDuplicates (total : Z).

(** The loop [for i in range(0, len(ids), CHUNK)], [starts] being the
    values of [i] still to come and [total] the running count. *)
Fixpoint delete_batches (chunk : Z) (ids : list Z) (starts : list Z) (total : Z)
    : M Z :=
  match starts with
  | [] => mret total
  | i :: starts' =>
      let batch := take (Z.to_nat chunk) (drop (Z.to_nat i) ids) in
      n ← execute_non_query (DELETE_USERS_IN batch);
      delete_batches chunk ids starts' (total + n)
  end.

(** [cmd_dedupe(db)]. *)
Definition cmd_dedupe : M printed :=
  to_delete ← execute_query SELECT_DUPLICATE_USERS;
  match to_delete with
  | [] => mret NoDuplicates
  | _ =>
      ids ← column to_delete "id";
      total ← delete_batches CHUNK ids (range_step (Z.of_nat (length ids)) CHUNK) 0;
      mret (RemovedDuplicates total)
  end.

(** The primary key of [test_users] holds in a store. *)
Definition pk_users (s : db) : Prop :=
  NoDup (user_id <$> rows (test_users s)).


End Main.

(** ** Further constraints of the schema *)
Module Constraints.

(** The primary key of [douban_movies], with the counter ahead of every
    id, as [AUTO_INCREMENT] keeps it. *)
Definition pk_movies (s : db) : Prop :=
  NoDup (mv_id <$> rows (douban_movies s))
  ∧ Forall (λ row, mv_id row < auto_increment (douban_movies s))
      (rows (douban_movies s)).




(** The unique key on [email] that [TABLE_SQL] declares for [test_users]. *)
Definition uk_email (s : db) : Prop :=
  NoDup (user_email <$> rows (test_users s)).


End Constraints.
Export Constraints.

(** ** tasks/DOUBAN_HOT.py: the loop bodies by themselves *)
Module Crawl.
Import Douban.

(** [(n or "").strip()], the first line of the cleaning loop of
    [ensure_dim_and_map]. *)
Definition cleaned (n : option string) : string := strip (default "" n).

(** One turn of the page loop of [crawl_top_n]:
    [parse_list(fetch_list_page(start))]. *)
Definition page `{Scraper} (start : Z) : exn + list item :=
  match fetch_list_page start with
  | inl e => inl e
  | inr html => parse_list html
  end.

(** [a["href"]] for the title link [a] of a card, when both are there. *)
Definition href (c : card) : option string := hd_a c ≫= fst.

(** A card whose title link has no [href]: the subscript [a["href"]] of
    [parse_list] raises on it. *)
Definition broken (c : card) : Prop := ∃ t, hd_a c = Some (None, t).

Global Instance broken_dec (c : card) : Decision (broken c).
Proof.
  unfold broken. destruct (hd_a c) as [[[u|] t]|].
  - right. by intros [? [=]].
  - left. by exists t.
  - right. by intros [? [=]].
Defined.

End Crawl.

(** ** tasks/BAIDU_HOT.py: the loop bodies by themselves *)
Module Board.
Import MySQL Baidu.

(** The title [parse_from_html] reads from a card:
    [(title_el.get_text(strip=True) if title_el else "").strip()]. *)
Definition card_title (c : card) : string :=
  strip (default "" (match ellipsis c with Some t => Some t | None => first_a c end)).

(** [[... for it in items if it.get("title")]] of [save_items]. *)
Definition kept (items : list hot_item) : list hot_item :=
  filter (λ it, title it ≠ "") items.



End Board.

(** ** main.py: the batches of the reconciler *)
Module Reconciler.

(** [[ids[i:i+CHUNK] for i in range(0, len(ids), CHUNK)]]. *)
Definition batches (chunk : Z) (ids : list Z) : list (list Z) :=
  (λ i, take (Z.to_nat chunk) (drop (Z.to_nat i) ids))
    <$> range_step (Z.of_nat (length ids)) chunk.

End Reconciler.

(** ** tasks/DOUBAN_HOT.py: the persistence loop of [main] *)
Module Pipeline.
Import Douban.







End Pipeline.

(** ** main.py: the commands on [test_users] *)
Module Admin.

(** The statements of the commands, with their parameters. *)
Inductive stmt :=
| INSERT_IGNORE_USER (name email : string)
  (* INSERT IGNORE INTO test_users (name, email) VALUES (%s, %s) *)
| INSERT_USER (name email : string)
  (* INSERT INTO test_users (name, email) VALUES (%s, %s) *)
| UPDATE_NAME (name : string) (id : Z)
  (* UPDATE test_users SET name = %s WHERE id = %s *)
| UPDATE_EMAIL (email : string) (id : Z)
  (* UPDATE test_users SET email = %s WHERE id = %s *)
| DELETE_USER (id : Z)
  (* DELETE FROM test_users WHERE id = %s *)
| SELECT_COUNT
  (* SELECT COUNT( * ) AS c FROM test_users *)
| SET_COUNT
  (* SET @count = 0 *)
| UPDATE_IDS
  (* UPDATE test_users SET id = (@count := @count + 1) ORDER BY id *)
| ALTER_AUTO_INCREMENT.
  (* ALTER TABLE test_users AUTO_INCREMENT = 1 *)

(** The connection of one run of the program: the table, the user
    variable [@count] (NULL until it is set), the statements sent. *)
Record session := Session {
  users : table user_row;
  count : option Z;
  sent : list stmt
}.

Definition with_table (s : session) (t : table user_row) : session :=
  Session t (count s) (sent s).

(** A duplicate entry for a unique key, and a NULL for a column that
    takes none. *)
Definition ER_DUP_ENTRY : Z := 1062.
Definition ER_BAD_NULL : Z := 1048.

(** [INSERT] and [INSERT IGNORE]: [created_at] defaults to the time of the
    statement; a row whose email or id is taken is refused, silently
    under [IGNORE]; the counter advances either way. *)
Definition insert_user (ignore : bool) (t : table user_row) (name email : string)
    (now : Z) : (exn + outcome) * table user_row :=
  if decide (email ∈ user_email <$> rows t ∨ auto_increment t ∈ user_id <$> rows t)
  then (if ignore then inr (Outcome 0 0 []) else inl (IntegrityError ER_DUP_ENTRY),
        Table (rows t) (auto_increment t + 1))
  else (inr (Outcome 1 (auto_increment t) []),
        Table (rows t ++ [UserRow (auto_increment t) name email now])
          (auto_increment t + 1)).

(** [UPDATE ... SET name]: the affected rows are the changed ones. *)
Definition update_name (t : table user_row) (name : string) (id : Z)
    : outcome * table user_row :=
  (Outcome (Z.of_nat (length (filter (λ r, user_id r = id ∧ user_name r ≠ name)
                                (rows t)))) 0 [],
   Table ((λ r, if decide (user_id r = id)
                then UserRow (user_id r) name (user_email r) (user_created_at r)
                else r) <$> rows t)
     (auto_increment t)).

(** [UPDATE ... SET email]: refused when it would give two rows one
    email. *)
Definition update_email (t : table user_row) (email : string) (id : Z)
    : (exn + outcome) * table user_row :=
  match filter (λ r, user_id r = id ∧ user_email r ≠ email) (rows t) with
  | [] => (inr (Outcome 0 0 []), t)
  | targets =>
      if decide (email ∈ user_email <$> rows t ∨ (2 ≤ length targets)%nat)
      then (inl (IntegrityError ER_DUP_ENTRY), t)
      else (inr (Outcome (Z.of_nat (length targets)) 0 []),
            Table ((λ r, if decide (user_id r = id)
                         then UserRow (user_id r) (user_name r) email (user_created_at r)
                         else r) <$> rows t)
              (auto_increment t))
  end.

Definition delete_user (t : table user_row) (id : Z) : outcome * table user_row :=
  let kept := filter (λ r, user_id r ≠ id) (rows t) in
  (Outcome (Z.of_nat (length (rows t)) - Z.of_nat (length kept)) 0 [],
   Table kept (auto_increment t)).

(** The positions of the rows in ascending order of [id], the order in
    which [UPDATE ... ORDER BY id] visits them. *)
Definition id_le (a b : nat * user_row) : Prop := user_id a.2 ≤ user_id b.2.

Global Instance id_le_dec a b : Decision (id_le a b).
Proof. unfold id_le. apply _. Defined.

Definition id_lt (a b : nat * user_row) : Prop := user_id a.2 < user_id b.2.

Global Instance id_le_trans : Transitive id_le.
Proof. unfold id_le. intros a b c. lia. Qed.
Global Instance id_le_total : Total id_le.
Proof. unfold id_le. intros a b. lia. Qed.

Definition by_id (l : list user_row) : list nat :=
  fst <$> merge_sort id_le (imap pair l).

Definition set_id (r : user_row) (i : Z) : user_row :=
  UserRow i (user_name r) (user_email r) (user_created_at r).

(** The rows are renumbered one by one: [@count] is incremented and given
    to the row as its id, the primary key being checked at each row. *)
Fixpoint renumber (order : list nat) (c : Z) (l : list user_row)
    : (exn + list user_row) * Z :=
  match order with
  | [] => (inr l, c)
  | p :: order' =>
      match l !! p with
      | None => renumber order' c l
      | Some r =>
          if decide (user_id r = c + 1) then renumber order' (c + 1) l
          else if decide (c + 1 ∈ user_id <$> l)
          then (inl (IntegrityError ER_DUP_ENTRY), c + 1)
          else renumber order' (c + 1) (<[p := set_id r (c + 1)]> l)
      end
  end.

(** [ALTER TABLE ... AUTO_INCREMENT = 1]: the counter cannot go below the
    ids in use, it becomes the largest id plus one. *)
Definition next_id (l : list user_row) : Z :=
  foldr (λ r m, Z.max (user_id r + 1) m) 1 l.

(** What the server does with each statement, at time [now]. *)
Definition exec (now : Z) (q : stmt) (s : session) : (exn + outcome) * session :=
  match q with
  | INSERT_IGNORE_USER name email =>
      let '(r, t) := insert_user true (users s) name email now in (r, with_table s t)
  | INSERT_USER name email =>
      let '(r, t) := insert_user false (users s) name email now in (r, with_table s t)
  | UPDATE_NAME name id =>
      let '(o, t) := update_name (users s) name id in (inr o, with_table s t)
  | UPDATE_EMAIL email id =>
      let '(r, t) := update_email (users s) email id in (r, with_table s t)
  | DELETE_USER id =>
      let '(o, t) := delete_user (users s) id in (inr o, with_table s t)
  | SELECT_COUNT =>
      (inr (Outcome 0 0 [ {[ "c" := Z.of_nat (length (rows (users s))) ]} ]), s)
  | SET_COUNT => (inr (Outcome 0 0 []), Session (users s) (Some 0) (sent s))
  | UPDATE_IDS =>
      match count s, rows (users s) with
      | _, [] => (inr (Outcome 0 0 []), s)
      | None, _ => (inl (IntegrityError ER_BAD_NULL), s)
      | Some c, l =>
          match renumber (by_id l) c l with
          | (inr l', c') =>
              (inr (Outcome (Z.of_nat (length (filter (λ rr, user_id rr.1 ≠ user_id rr.2)
                                                 (zip l l')))) 0 []),
               Session (Table l' (auto_increment (users s))) (Some c') (sent s))
          | (inl e, c') => (inl e, Session (users s) (Some c') (sent s))
          end
      end
  | ALTER_AUTO_INCREMENT =>
      (inr (Outcome 0 0 []),
       with_table s (Table (rows (users s)) (next_id (rows (users s)))))
  end.

(** What a command raises: its own [ValueError], or an error of the
    server. *)
Inductive error :=
| ValueError (msg : string)
| DatabaseError (e : exn).

Inductive result (A : Type) :=
| Ok (a : A) (s : session)
| Raise (e : error) (s : session).
Arguments Ok {A} _ _.
Arguments Raise {A} _ _.

Definition M (A : Type) : Type := session → result A.

Global Instance M_ret : MRet M := λ A a s, Ok a s.
Global Instance M_bind : MBind M := λ A B f c s,
  match c s with
  | Ok a s' => f a s'
  | Raise e s' => Raise e s'
  end.

Definition raise {A} (e : error) : M A := λ s, Raise e s.

Definition final {A} (r : result A) : session :=
  match r with
  | Ok _ s => s
  | Raise _ s => s
  end.

(** One round trip at time [now]. *)
Definition send (now : Z) (q : stmt) : M outcome := λ s,
  let s1 := Session (users s) (count s) (sent s ++ [q]) in
  match exec now q s1 with
  | (inr o, s2) => Ok o s2
  | (inl e, s2) => Raise (DatabaseError e) s2
  end.

(** Modelled from the spec: the module mysql_helper is not among the
    sources.  "A parameterized single-statement execute returning
    affected-row count", "a parameterized query returning a sequence of
    rows as name-value mappings", "a batched multi-row insert". *)
Definition execute_non_query (now : Z) (q : stmt) : M Z :=
  o ← send now q; mret (affected o).

Definition execute_query (now : Z) (q : stmt) : M (list (gmap string Z)) :=
  o ← send now q; mret (fetched o).

Fixpoint execute_many_loop (now : Z) (qs : list stmt) (total : Z) : M Z :=
  match qs with
  | [] => mret total
  | q :: qs' => o ← send now q; execute_many_loop now qs' (total + affected o)
  end.

Definition execute_many (now : Z) (qs : list stmt) : M Z := λ s,
  match execute_many_loop now qs 0 s with
  | Ok n s' => Ok n s'
  | Raise e s' => Raise e (Session (users s) (count s') (sent s'))
  end.

Definition SAMPLE_USERS : list (string * string) :=
  [("Alice Smith", "alice@example.com");
   ("Bob Johnson", "bob@example.com");
   ("Charlie Brown", "charlie@example.com")].

(** [cmd_seed(db)]. *)
Definition cmd_seed (now : Z) : M unit :=
  _ ← execute_many now ((λ u, INSERT_IGNORE_USER u.1 u.2) <$> SAMPLE_USERS);
  mret ().

(** [cmd_insert(db, name, email)]; the result is the printed count. *)
Definition cmd_insert (now : Z) (name email : string) : M Z :=
  if decide (strip email = "") then raise (ValueError "Email cannot be empty")
  else execute_non_query now (INSERT_USER name email).

(** [cmd_update_name(db, user_id, new_name)]. *)
Definition cmd_update_name (now : Z) (user_id : Z) (new_name : string) : M Z :=
  execute_non_query now (UPDATE_NAME new_name user_id).

(** [cmd_update_email(db, user_id, new_email)]. *)
Definition cmd_update_email (now : Z) (user_id : Z) (new_email : string) : M Z :=
  execute_non_query now (UPDATE_EMAIL new_email user_id).

(** [cmd_delete(db, user_id)]. *)
Definition cmd_delete (now : Z) (user_id : Z) : M Z :=
  execute_non_query now (DELETE_USER user_id).

(** [cmd_count(db)]: [cnt[0]['c'] if cnt else 0]. *)
Definition cmd_count (now : Z) : M Z :=
  cnt ← execute_query now SELECT_COUNT;
  match cnt with
  | [] => mret 0
  | r :: _ => match r !! "c" with
              | Some c => mret c
              | None => raise (DatabaseError (KeyError "c"))
              end
  end.

(** [cmd_reindex(db)]. *)
Definition cmd_reindex (now : Z) : M unit :=
  _ ← execute_non_query now SET_COUNT;
  _ ← execute_non_query now UPDATE_IDS;
  _ ← execute_non_query now ALTER_AUTO_INCREMENT;
  mret ().

(** The subcommands of [main] that work on the rows of [test_users], with
    their arguments, and what each prints. *)
Inductive command :=
| Seed
| Insert (name email : string)
| UpdateName (id : Z) (name : string)
| UpdateEmail (id : Z) (email : string)
| Delete (id : Z)
| Count
| Reindex.

Inductive printed :=
| Seeded
| InsertedRows (rows : Z)
| UpdatedRows (rows : Z)
| DeletedRows (rows : Z)
| RowCount (c : Z)
| Reindexed.

(** The dispatch of [main] on these subcommands. *)
Definition main (now : Z) (cmd : command) : M printed :=
  match cmd with
  | Seed => _ ← cmd_seed now; mret Seeded
  | Insert name email => n ← cmd_insert now name email; mret (InsertedRows n)
  | UpdateName id name => n ← cmd_update_name now id name; mret (UpdatedRows n)
  | UpdateEmail id email => n ← cmd_update_email now id email; mret (UpdatedRows n)
  | Delete id => n ← cmd_delete now id; mret (DeletedRows n)
  | Count => c ← cmd_count now; mret (RowCount c)
  | Reindex => _ ← cmd_reindex now; mret Reindexed
  end.

(** The constraints [TABLE_SQL] declares: the unique key on [email], the
    primary key on [id], ids from 1 on and below the counter. *)
Definition sound (s : session) : Prop :=
  NoDup (user_email <$> rows (users s))
  ∧ NoDup (user_id <$> rows (users s))
  ∧ Forall (λ r, 1 ≤ user_id r < auto_increment (users s)) (rows (users s))
  ∧ 1 ≤ auto_increment (users s).

End Admin.

(** ** Sample data *)

(** The scenario of the specification: key "42" written twice. *)
Definition movie_X : Douban.item :=
  Douban.Item (Some 1) (Some "42") "X" None (Some 2001) None None None [] []
    "https://movie.douban.com/subject/42/".
Definition movie_X2 : Douban.item :=
  Douban.Item (Some 2) (Some "42") "X2" None (Some 2002) None None None [] []
    "https://movie.douban.com/subject/42/".

(** A card with a title and a year whose link holds no subject id. *)
Definition movie_without_id : Douban.item :=
  Douban.Item (Some 1) None "X" None (Some 2001) None None None [] []
    "https://movie.douban.com/top250".

(** A store in which two movies are persisted. *)
Definition two_movies : db :=
  with_movies Douban.schema
    (Table [MovieRow 1 "42" 1 "X" None (Some 2001) None None None None None None 100;
            MovieRow 2 "43" 2 "Y" None (Some 2002) None None None None None None 100] 3).

(** A [test_users] table written before the unique key on [email] existed:
    four rows share one address, the smallest id being 2. *)
Definition duplicated_users : db :=
  with_users Douban.schema
    (Table [UserRow 5 "Alice Smith" "alice@example.com" 50;
            UserRow 2 "Alice" "alice@example.com" 20;
            UserRow 3 "Bob Johnson" "bob@example.com" 30;
            UserRow 9 "A. Smith" "alice@example.com" 90;
            UserRow 4 "Alice S." "alice@example.com" 40] 10).

(** An embedded tree that holds an array but no key named "items". *)
Definition tree_without_items : value :=
  JDict [("data", JDict [("cards", JList [JDict [("word", JStr "A")]])])].

(** A movie card whose title link has no text and which has no
    [span.title]. *)
Definition card_without_title : Douban.card :=
  Douban.Card (Some "1")
    (Some (Some "https://movie.douban.com/subject/1292052/", ""))
    [] None None None None.

(** A list page that holds this one card. *)
Definition one_card_page : Douban.Scraper := {|
  Douban.fetch_list_page := λ _, inr "<html>";
  Douban.select_items := λ _, [card_without_title];
  Douban.subject_id := λ _, Some "1292052";
  Douban.float := λ _, None;
  Douban.votes_of := λ _, None;
  Douban.director_of := λ s, s;
  Douban.meta_of := λ _, (None, [], [])
|}.



(** Two overlapping pages: key "1" comes twice, one card has neither id
    nor rank. *)
Definition overlapping_pages : list Douban.item :=
  [Douban.Item (Some 2) (Some "1") "A" None (Some 1994) None None None [] [] "/subject/1/";
   Douban.Item None None "B" None (Some 1995) None None None [] [] "/b";
   Douban.Item (Some 1) (Some "1") "A2" None (Some 1994) None None None [] [] "/subject/1/";
   Douban.Item (Some 1) (Some "3") "C" None None None None None [] [] "/subject/3/";
   Douban.Item None None "B" None (Some 1995) None None None [] [] "/b2"].

(** A board page with embedded state: three entries under "items", the
    second without any title. *)
Definition embedded_board : Baidu.Scraper := {|
  Baidu.fetch_html := inr "<html>";
  Baidu.search_initial_state := λ _, Some "{...}";
  Baidu.loads := λ _, Some (JDict [("data", JDict [("cards", JList [JDict
    [("component", JStr "hotList");
     ("items", JList [JDict [("word", JStr " A "); ("url", JStr "/s?wd=A")];
                      JDict [("word", JStr ""); ("query", JNull)];
                      JDict [("query", JStr "B"); ("appUrl", JStr "/s?wd=B")]])]])])]);
  Baidu.select_cards := λ _, [];
  Baidu.urljoin := λ base href, href
|}.

(** The same page with an entry that is a number instead of a dict. *)
Definition malformed_board : Baidu.Scraper := {|
  Baidu.fetch_html := inr "<html>";
  Baidu.search_initial_state := λ _, Some "{...}";
  Baidu.loads := λ _, Some (JDict [("items", JList [JInt 7])]);
  Baidu.select_cards := λ _, [];
  Baidu.urljoin := λ base href, href
|}.


(** A site of two list pages, one card each; the link of a card holds
    its subject id between the last two slashes. *)
Definition card_of (rank id title : string) : Douban.card :=
  Douban.Card (Some rank) (Some (Some ("/subject/" +:+ id +:+ "/"), title))
    [title] None None None None.

Definition two_page_site : Douban.Scraper := {|
  Douban.fetch_list_page := λ start, inr (if decide (start = 0) then "first" else "second");
  Douban.select_items := λ html,
    if decide (html = "first") then [card_of "1" "11" "A"] else [card_of "26" "12" "B"];
  Douban.subject_id := λ url, Some (String.substring 9 2 url);
  Douban.float := λ _, None;
  Douban.votes_of := λ _, None;
  Douban.director_of := λ s, s;
  Douban.meta_of := λ _, (None, [], [])
|}.

(** The two items these pages hold. *)
Definition item_A : Douban.item :=
  Douban.Item (Some 1) (Some "11") "A" None None None None (Some "") [] []
    "/subject/11/".
Definition item_B : Douban.item :=
  Douban.Item (Some 26) (Some "12") "B" None None None None (Some "") [] []
    "/subject/12/".

(** The same site when the request for the second page times out. *)
Definition failing_site : Douban.Scraper := {|
  Douban.fetch_list_page := λ start,
    if decide (start = 0) then inr "first" else inl RequestException;
  Douban.select_items := λ html, [card_of "1" "11" "A"];
  Douban.subject_id := λ url, Some (String.substring 9 2 url);
  Douban.float := λ _, None;
  Douban.votes_of := λ _, None;
  Douban.director_of := λ s, s;
  Douban.meta_of := λ _, (None, [], [])
|}.




(** [test_users] as [cmd_seed] fills it. *)
Definition seeded_users : db :=
  with_users Douban.schema
    (Table [UserRow 1 "Alice Smith" "alice@example.com" 10;
            UserRow 2 "Bob Johnson" "bob@example.com" 10;
            UserRow 3 "Charlie Brown" "charlie@example.com" 10] 4).

(** A session on [test_users] after rows 1, 3, 4, 6, 7 and 8 were
    deleted: the ids left have gaps, and the rows are not in id order. *)
Definition gappy_session : Admin.session :=
  Admin.Session
    (Table [UserRow 5 "Bob Johnson" "bob@example.com" 30;
            UserRow 2 "Alice Smith" "alice@example.com" 20;
            UserRow 9 "Dan" "dan@example.com" 90] 10)
    None [].
(** ** Lists of rows with a unique key *)
Section keyed.
Context {A K : Type} `{EqDecision K} (key : A → K).

Lemma filter_key_absent (l : list A) (k : K) :
  k ∉ key <$> l → filter (λ r, key r = k) l = [].
Proof.
  induction l as [|x l IH]; intros Hk; [done|].
  rewrite fmap_cons, not_elem_of_cons in Hk. destruct Hk as [Hx Hl].
  rewrite filter_cons_False by congruence. auto.
Qed.

Lemma list_find_key_None (l : list A) (k : K) :
  list_find (λ r, key r = k) l = None ↔ k ∉ key <$> l.
Proof.
  rewrite list_find_None, Forall_forall, list_elem_of_fmap. split.
  - intros Hl (x & -> & Hx). by apply (Hl x).
  - intros Hn x Hx Hk. apply Hn. eauto.
Qed.

Lemma list_find_key_Some (l : list A) (k : K) (i : nat) (x : A) :
  list_find (λ r, key r = k) l = Some (i, x) →
  l = take i l ++ x :: drop (S i) l ∧ key x = k ∧ (i < length l)%nat.
Proof.
  rewrite list_find_Some. intros (Hi & Hk & _). split_and!; [|done|].
  - by rewrite take_drop_middle.
  - by eapply lookup_lt_Some.
Qed.

(** Overwriting the row of a key in place keeps the keys and leaves
    just the new row under that key. *)
Lemma upsert_found (l : list A) (k : K) (i : nat) (old new : A) :
  NoDup (key <$> l) →
  list_find (λ r, key r = k) l = Some (i, old) →
  key new = k →
  key <$> <[i:=new]> l = key <$> l
  ∧ filter (λ r, key r = k) (<[i:=new]> l) = [new].
Proof.
  intros Hnd Hfind Hnew.
  destruct (list_find_key_Some _ _ _ _ Hfind) as (Hl & Hold & Hi).
  assert (Hlen : length (take i l) = i) by (rewrite length_take; lia).
  assert (Hins : <[i:=new]> l = take i l ++ new :: drop (S i) l).
  { rewrite Hl at 1. rewrite <- Hlen at 1.
    replace (length (take i l)) with (length (take i l) + 0)%nat by lia.
    by rewrite insert_app_r. }
  rewrite Hl in Hnd. rewrite fmap_app, fmap_cons, Hold in Hnd.
  apply NoDup_app in Hnd as (_ & Hl1 & Hnd).
  apply NoDup_cons in Hnd as (Hl2 & _).
  split.
  - rewrite Hins. rewrite Hl at 3.
    rewrite !fmap_app, !fmap_cons. congruence.
  - rewrite Hins, filter_app, filter_cons_True by done.
    rewrite !filter_key_absent; [done|done|].
    intros Hin. apply (Hl1 _ Hin). left.
Qed.

(** Appending a row under a key that is not there. *)
Lemma append_fresh (l : list A) (k : K) (new : A) :
  list_find (λ r, key r = k) l = None →
  key new = k →
  filter (λ r, key r = k) (l ++ [new]) = [new]
  ∧ (NoDup (key <$> l) → NoDup (key <$> (l ++ [new]))).
Proof.
  rewrite list_find_key_None. intros Hk Hnew. split.
  - rewrite filter_app, filter_key_absent by done.
    by rewrite filter_cons_True, filter_nil.
  - intros Hnd. rewrite fmap_app. apply NoDup_app. split_and!; [done| |].
    + intros x Hx Hin. apply list_elem_of_singleton in Hin. congruence.
    + apply NoDup_singleton.
Qed.

(** A row found under a key is the only one there. *)
Lemma filter_key_unique (l : list A) (k : K) (x : A) :
  NoDup (key <$> l) → x ∈ l → key x = k → filter (λ r, key r = k) l = [x].
Proof.
  intros Hnd Hx Hk. apply list_elem_of_split in Hx as (l1 & l2 & ->).
  rewrite fmap_app, fmap_cons, Hk in Hnd.
  apply NoDup_app in Hnd as (_ & Hl1 & Hnd).
  apply NoDup_cons in Hnd as (Hl2 & _).
  rewrite filter_app, filter_cons_True by done.
  rewrite !filter_key_absent; [done|done|].
  intros Hin. apply (Hl1 _ Hin). left.
Qed.
(** Rows of equal key are equal. *)
Lemma key_inj (l : list A) (x y : A) :
  NoDup (key <$> l) → x ∈ l → y ∈ l → key x = key y → x = y.
Proof.
  intros Hnd Hx Hy Hk.
  pose proof (filter_key_unique l (key x) x Hnd Hx eq_refl) as H1.
  pose proof (filter_key_unique l (key x) y Hnd Hy (eq_sym Hk)) as H2.
  congruence.
Qed.
End keyed.

(** ** Filters *)
Section filters.
Context {A : Type}.



Lemma filter_none (P : A → Prop) `{∀ x, Decision (P x)} (l : list A) :
  (∀ x, x ∈ l → ¬ P x) → filter P l = [].
Proof.
  induction l as [|x l IH]; intros HP; [done|].
  rewrite filter_cons_False by (apply HP; left).
  apply IH. intros y Hy. apply HP. by right.
Qed.

End filters.

(** ** The movie upsert *)
Section upsert.
Import MySQL Douban.

Lemma upsert_movie_row_spec (t : table movie_row) k r ti ot y ra v d u g :
  NoDup (mv_douban_id <$> rows t) →
  ∃ id row,
    row = MovieRow id k r ti ot y ra v d u (mv_poster_url row) (mv_summary row) g
    ∧ filter (λ x, mv_douban_id x = k)
        (rows (upsert_movie_row t k r ti ot y ra v d u g).2) = [row]
    ∧ NoDup (mv_douban_id <$> rows (upsert_movie_row t k r ti ot y ra v d u g).2)
    ∧ (∀ old, old ∈ rows t → mv_douban_id old = k → id = mv_id old).
Proof.
  intros Hnd. unfold upsert_movie_row.
  destruct (list_find _ (rows t)) as [[i old]|] eqn:Hfind; simpl.
  - set (new := MovieRow (mv_id old) k r ti ot y ra v d u _ _ g).
    destruct (upsert_found mv_douban_id (rows t) k i old new Hnd Hfind eq_refl)
      as [Hkeys Hfilter].
    exists (mv_id old), new. split_and!; [done|done|by rewrite Hkeys|].
    intros old' Hin Hk.
    apply list_find_Some in Hfind as (Hi & Hold & _).
    apply list_elem_of_lookup_2 in Hi.
    pose proof (filter_key_unique mv_douban_id _ _ _ Hnd Hi Hold) as H1.
    pose proof (filter_key_unique mv_douban_id _ _ _ Hnd Hin Hk) as H2.
    congruence.
  - set (new := MovieRow (auto_increment t) k r ti ot y ra v d u None None g).
    destruct (append_fresh mv_douban_id (rows t) k new Hfind eq_refl)
      as [Hfilter Hkeys].
    exists (auto_increment t), new. split_and!; [done|done|by apply Hkeys|].
    intros old Hin Hk. apply list_find_key_None in Hfind.
    destruct Hfind. apply list_elem_of_fmap. eauto.
Qed.

(** A record that carries a key and a rank is written, and the id of
    its row comes back; a row already stored under the key keeps its id. *)
Lemma upsert_movie_ok (s : db) (now : Z) (m : item) (k : string) :
  uk_douban s →
  douban_id m = Some k →
  is_Some (rank_no m) →
  ∃ row s',
    upsert_movie now m s = Ok (mv_id row) s'
    ∧ movies_with k s' = [row]
    ∧ stored_as m now row
    ∧ uk_douban s'
    ∧ (∀ old, old ∈ rows (douban_movies s) → mv_douban_id old = k →
         mv_id row = mv_id old).
Proof.
  intros Hnd Hk [r Hr].
  destruct (upsert_movie_row_spec (douban_movies s) k r (title m)
              (original_title m) (year m) (rating m) (votes m) (director m)
              (Some (url m)) now Hnd) as (id & row & Hrow & Hfilter & Hnd' & Hold).
  unfold upsert_movie, execute_non_query, execute_query, send.
  unfold mbind, M_bind, mret, M_ret. simpl. rewrite Hk, Hr. simpl.
  destruct (upsert_movie_row _ _ _ _ _ _ _ _ _ _ _) as [o t'] eqn:Hup.
  simpl in *. rewrite Hfilter. simpl.
  unfold fetch_field. simpl. rewrite lookup_singleton_eq.
  eexists row, _. split_and!; [reflexivity|exact Hfilter| |exact Hnd'|].
  - rewrite Hrow. unfold stored_as. simpl. by rewrite Hk, Hr.
  - intros old Hin Hko. rewrite <- (Hold old Hin Hko). by rewrite Hrow.
Qed.

End upsert.


Example upsert_scenario :
  match (_ ← Douban.upsert_movie 100 movie_X;
         Douban.upsert_movie 200 movie_X2) Douban.schema with
  | Ok id s => Some (id, rows (douban_movies s))
  | Raise _ _ => None
  end
  = Some (1, [MovieRow 1 "42" 2 "X2" None (Some 2002) None None None
                (Some "https://movie.douban.com/subject/42/") None None 200]).
Proof. vm_compute. reflexivity. Qed.


(** ** A record without an external id *)
Section no_external_id.
Import MySQL Douban.

(** At a record that carries a title and a year but no external id, the
    call does not return an id and no row is stored under (title, year). *)
Lemma composite_key_fallback_fails :
  douban_id movie_without_id = None
  ∧ ¬ (∃ id s' row,
         upsert_movie 100 movie_without_id schema = Ok id s'
         ∧ filter (λ r, mv_title r = title movie_without_id
                        ∧ mv_year r = year movie_without_id)
             (rows (douban_movies s')) = [row]
         ∧ mv_id row = id)
  ∧ rows (douban_movies (final (upsert_movie 100 movie_without_id schema))) = [].
Proof.
  split_and!; [reflexivity| |reflexivity].
  intros (id & s' & row & Hrun & _). vm_compute in Hrun. discriminate.
Qed.

(** C4, as the code has it.  A record without an external id is not
    persisted under any derived key: the insert is rejected by the
    [NOT NULL] column [douban_id], [upsert_movie] raises, and the only
    trace in the store is the logged statement. *)
Theorem upsert_without_id_rejected (s : db) (now : Z) (m : item) :
  douban_id m = None →
  upsert_movie now m s
  = Raise (IntegrityError 1048)
      (with_log s (log s ++ [UPSERT_MOVIE_SQL None (rank_no m) (Some (title m))
                               (original_title m) (year m) (rating m) (votes m)
                               (director m) (Some (url m)) now])).
Proof.
  intros Hk. unfold upsert_movie, execute_non_query, send.
  unfold mbind, M_bind. simpl. by rewrite Hk.
Qed.

Lemma upsert_without_id_rejected_witness :
  upsert_movie 100 movie_without_id schema
  = Raise (IntegrityError 1048)
      (with_log schema
         [UPSERT_MOVIE_SQL None (Some 1) (Some "X") None (Some 2001) None None
            None (Some "https://movie.douban.com/top250") 100]).
Proof. apply (upsert_without_id_rejected schema 100 movie_without_id). reflexivity. Defined.
End no_external_id.

(** ** Dimension tables and association tables *)
Section dimensions.
Import MySQL Douban.

Lemma upsert_dim_row_spec (t : table dim_row) (name : string) :
  NoDup (dim_name <$> rows t) →
  DimRow (insert_id (upsert_dim_row t name).1) name ∈ rows (upsert_dim_row t name).2
  ∧ (∀ x, x ∈ rows t → x ∈ rows (upsert_dim_row t name).2)
  ∧ NoDup (dim_name <$> rows (upsert_dim_row t name).2).
Proof.
  intros Hnd. unfold upsert_dim_row.
  destruct (list_find _ (rows t)) as [[i old]|] eqn:Hfind; simpl.
  - apply list_find_Some in Hfind as (Hi & Hname & _).
    apply list_elem_of_lookup_2 in Hi. destruct old as [d n]; simpl in *; subst n.
    done.
  - destruct (append_fresh dim_name (rows t) name (DimRow (auto_increment t) name)
                Hfind eq_refl) as [_ Hkeys].
    split_and!; [|intros x Hx|by apply Hkeys]; rewrite elem_of_app; [right; left|by left].
Qed.






End dimensions.

Example genre_scenario :
  match (_ ← Douban.ensure_dim_and_map 1 (Some [Some " Drama "; None; Some "Crime"])
               "douban_genre" "douban_movie_genre" "genre_id";
         _ ← Douban.ensure_dim_and_map 2 (Some [Some "Crime"; Some "Drama"])
               "douban_genre" "douban_movie_genre" "genre_id";
         Douban.ensure_dim_and_map 2 (Some [Some "Drama"; Some "Drama "])
               "douban_genre" "douban_movie_genre" "genre_id") two_movies with
  | Ok _ s => Some (rows <$> dims s !! "douban_genre",
                    map_rows <$> maps s !! "douban_movie_genre")
  | Raise _ _ => None
  end
  = Some (Some [DimRow 1 "Drama"; DimRow 2 "Crime"],
          Some [(1, 1); (1, 2); (2, 2); (2, 1)]).
Proof. vm_compute. reflexivity. Qed.


(** ** The constraints of the schema are invariants *)
Section constraints.
Import MySQL.

Lemma consistent_with_log (s : db) (l : list stmt) :
  consistent s → consistent (with_log s l).
Proof. intros [? ? ? ? ?]. by constructor. Qed.

(** Every statement that succeeds keeps the constraints of the schema. *)
Lemma exec_consistent (q : stmt) (s : db) (o : outcome) (s' : db) :
  consistent s → exec q s = inr (o, s') → consistent s'.
Proof.
  intros [Huk Hdim Hpk Hfk Hus] Hexec.
  destruct q as [k r ti ot y ra v d u g|k|dt name|mt col mid did| |ids|r ti u g];
    simpl in Hexec.
  - (* movie upsert *)
    destruct k as [k|], r as [r|], ti as [ti|]; try done.
    destruct (upsert_movie_row _ _ _ _ _ _ _ _ _ _ _) as [o' t'] eqn:Hup.
    injection Hexec as <- <-.
    destruct (upsert_movie_row_spec (douban_movies s) k r ti ot y ra v d u g Huk)
      as (id & row & _ & _ & Hnd & _).
    rewrite Hup in Hnd. constructor; simpl; try done.
    intros mt m movie_id fk Hm Hin. destruct (Hfk mt m movie_id fk Hm Hin) as [Hmv Hd].
    split; [|done]. revert Hmv. clear -Hup. unfold upsert_movie_row in Hup.
    destruct (list_find _ _) as [[i old]|] eqn:Hfind; injection Hup as _ <-; simpl.
    + rewrite !list_elem_of_fmap. intros (x & -> & Hx).
      apply list_find_Some in Hfind as (Hi & _ & _).
      apply list_elem_of_lookup in Hx as [j Hj].
      destruct (decide (i = j)) as [->|Hne].
      * eexists. split; [|eapply list_elem_of_lookup_2, list_lookup_insert_eq;
                           by eapply lookup_lt_Some].
        simpl. congruence.
      * exists x. split; [done|]. eapply list_elem_of_lookup_2.
        by rewrite list_lookup_insert_ne.
    + rewrite fmap_app, elem_of_app. by left.
  - destruct k; by injection Hexec as _ <-.
  - (* dimension upsert *)
    destruct (dims s !! dt) as [t|] eqn:Ht; [|done].
    destruct (upsert_dim_row t name) as [o' t'] eqn:Hup. injection Hexec as _ <-.
    destruct (upsert_dim_row_spec t name (Hdim _ _ Ht)) as (_ & Hsub & Hnd).
    rewrite Hup in Hsub, Hnd. simpl in *. constructor; simpl; try done.
    + intros dt' t0. destruct (decide (dt = dt')) as [<-|Hne].
      * rewrite lookup_insert_eq. by intros [= <-].
      * rewrite lookup_insert_ne by done. apply Hdim.
    + intros mt m movie_id fk Hm Hin.
      destruct (Hfk mt m movie_id fk Hm Hin) as [Hmv (t0 & Ht0 & Hd)].
      split; [done|]. destruct (decide (dt = map_references m)) as [Heq|Hne].
      * rewrite <- Heq, lookup_insert_eq. exists t'. split; [done|].
        rewrite <- Heq, Ht in Ht0. injection Ht0 as <-.
        rewrite list_elem_of_fmap in *. destruct Hd as (x & ? & ?). eauto.
      * rewrite lookup_insert_ne by done. eauto.
  - (* association insert *)
    destruct (maps s !! mt) as [m|] eqn:Hm; [|done].
    destruct (decide (col = map_fk_col m)); [|done].
    destruct (insert_ignore_map s m mid did) as [o' m'] eqn:Hins.
    injection Hexec as _ <-.
    assert (Hm' : NoDup (map_rows m')
                  ∧ map_references m' = map_references m
                  ∧ ∀ p, p ∈ map_rows m' → p ∈ map_rows m ∨
                      (p = (mid, did)
                       ∧ mid ∈ mv_id <$> rows (douban_movies s)
                       ∧ did ∈ dim_id <$> default [] (rows <$> dims s !! map_references m))).
    { pose proof (Hpk _ _ Hm) as Hndm. unfold insert_ignore_map in Hins.
      destruct (decide ((mid, did) ∈ map_rows m)) as [Hin|Hnin].
      { injection Hins as _ <-. split_and!; [done|done|]. intros p Hp. by left. }
      destruct (decide (_ ∧ _)) as [[Hmv Hd]|Hno]; injection Hins as _ <-; simpl.
      - split_and!; [|done|].
        + apply NoDup_app. split_and!; [done| |apply NoDup_singleton].
          intros p Hp Hp'. apply list_elem_of_singleton in Hp'. by subst.
        + intros p [Hp|Hp%list_elem_of_singleton]%elem_of_app; [by left|].
          right. by subst.
      - split_and!; [done|done|]. intros p Hp. by left. }
    destruct Hm' as (Hnd & Href & Hrows). constructor; simpl; try done.
    + intros mt' m0. destruct (decide (mt = mt')) as [<-|Hne].
      * rewrite lookup_insert_eq. by intros [= <-].
      * rewrite lookup_insert_ne by done. apply Hpk.
    + intros mt' m0 r fk. destruct (decide (mt = mt')) as [<-|Hne].
      * rewrite lookup_insert_eq. intros [= <-] Hin. rewrite Href.
        destruct (Hrows _ Hin) as [Hold|(Heq & Hmv & Hd)]; [by eapply Hfk|].
        injection Heq as -> ->. split; [done|].
        destruct (dims s !! map_references m) as [t|]; simpl in Hd; [eauto|].
        by apply elem_of_nil in Hd.
      * rewrite lookup_insert_ne by done. apply Hfk.
  - by injection Hexec as _ <-.
  - (* delete *)
    destruct ids as [|i ids]; [done|]. injection Hexec as _ <-.
    constructor; simpl; try done.
    eapply sublist_NoDup; [exact Hus|]. apply fmap_sublist, sublist_filter.
  - (* hot-search upsert *)
    destruct (upsert_hot_row _ _ _ _ _) as [o' t']. injection Hexec as _ <-.
    by constructor.
Qed.

(** So does a round trip, whether the statement succeeds or not. *)
Theorem send_consistent (q : stmt) (s : db) :
  consistent s → consistent (final (send q s)).
Proof.
  intros Hs. unfold send.
  destruct (exec q _) as [e|[o s']] eqn:Hexec; simpl.
  - by apply consistent_with_log.
  - eapply exec_consistent; [|exact Hexec]. by apply consistent_with_log.
Qed.

Lemma preserves_ret {A} (a : A) : preserves (mret a).
Proof. by intros s Hs. Qed.

Lemma preserves_raise {A} (e : exn) : preserves (raise e : M A).
Proof. by intros s Hs. Qed.

Lemma preserves_bind {A B} (c : M A) (k : A → M B) :
  preserves c → (∀ a, preserves (k a)) → preserves (c ≫= k).
Proof.
  intros Hc Hk s Hs. specialize (Hc s Hs). unfold mbind, M_bind.
  destruct (c s) as [a s'|e s']; [by apply Hk|done].
Qed.

Lemma preserves_send (q : stmt) : preserves (send q).
Proof. intros s. apply send_consistent. Qed.

Lemma preserves_get_cursor {A} (body : M A) : preserves body → preserves (_get_cursor body).
Proof.
  intros Hbody s Hs. specialize (Hbody s Hs). unfold _get_cursor.
  destruct (body s) as [a s'|e s']; [done|]. by apply consistent_with_log.
Qed.

Lemma preserves_execute_non_query (q : stmt) : preserves (execute_non_query q).
Proof. apply preserves_bind; [apply preserves_send|intros; apply preserves_ret]. Qed.

Lemma preserves_execute_query (q : stmt) : preserves (execute_query q).
Proof. apply preserves_bind; [apply preserves_send|intros; apply preserves_ret]. Qed.

Lemma preserves_execute_many (qs : list stmt) : preserves (execute_many qs).
Proof.
  apply preserves_get_cursor. generalize 0. induction qs as [|q qs IH]; intros total.
  - apply preserves_ret.
  - apply preserves_bind; [apply preserves_send|intros; apply IH].
Qed.




Theorem cmd_dedupe_consistent : preserves Main.cmd_dedupe.
Proof.
  apply preserves_bind; [apply preserves_execute_query|intros to_delete].
  destruct to_delete as [|r rs]; [apply preserves_ret|].
  apply preserves_bind.
  { unfold column. case_match; [apply preserves_ret|apply preserves_raise]. }
  intros ids. apply preserves_bind; [|intros; apply preserves_ret].
  generalize 0. generalize (range_step (Z.of_nat (length ids)) Main.CHUNK).
  intros starts. induction starts as [|i starts IH]; intros total.
  - apply preserves_ret.
  - apply preserves_bind; [apply preserves_execute_non_query|intros; apply IH].
Qed.

Theorem save_items_consistent (now : Z) (items : list Baidu.hot_item) :
  preserves (Baidu.save_items now items).
Proof.
  unfold Baidu.save_items. case_match; [apply preserves_ret|].
  apply preserves_execute_many.
Qed.


Lemma consistent_pk_users (s : db) : consistent s → Main.pk_users s.
Proof. by intros []. Qed.

End constraints.

(** ** The reconciler *)
Section reconciler.
Import MySQL Main.


Lemma range_step_bounds (len c i : Z) :
  0 < c → i ∈ range_step len c → 0 ≤ i < len.
Proof.
  intros Hc. unfold range_step. rewrite list_elem_of_fmap.
  intros (j & -> & Hj). apply elem_of_seq in Hj.
  assert (Z.of_nat j < (len + c - 1) `div` c) by lia.
  pose proof (Z.div_mod (len + c - 1) c ltac:(lia)).
  pose proof (Z.mod_pos_bound (len + c - 1) c Hc). nia.
Qed.


Lemma batch_nonempty (ids : list Z) (c i : Z) :
  0 < c → 0 ≤ i < Z.of_nat (length ids) →
  take (Z.to_nat c) (drop (Z.to_nat i) ids) ≠ [].
Proof.
  intros Hc Hi Hnil. apply (f_equal length) in Hnil.
  rewrite length_take, length_drop in Hnil. simpl in Hnil. lia.
Qed.



Lemma column_ids (l : list Z) (s : db) :
  column ((λ i, {[ "id" := i ]}) <$> l) "id" s = Ok l s.
Proof.
  unfold column.
  assert (mapM (λ r : gmap string Z, r !! "id")
            ((λ i : Z, ({[ "id" := i ]} : gmap string Z)) <$> l) = Some l) as ->; [|done].
  apply mapM_Some. induction l as [|i l IH]; constructor; [|done].
  apply lookup_singleton_eq.
Qed.



End reconciler.

Example dedupe_scenario :
  match Main.cmd_dedupe duplicated_users with
  | Ok out s => Some (out, user_id <$> rows (test_users s))
  | Raise _ _ => None
  end
  = Some (Main.RemovedDuplicates 3, [2; 3]).
Proof. vm_compute. reflexivity. Qed.


(** ** The in-batch dedupe *)
Section batch_dedupe.
Import Douban.

Lemma dedupe_step_seen (st : gset key * list item) (x : item) :
  dedupe_key x ∈ st.1 → dedupe_step st x = st.
Proof. intros Hin. unfold dedupe_step. by rewrite decide_True. Qed.

Lemma dedupe_step_new (st : gset key * list item) (x : item) :
  dedupe_key x ∉ st.1 →
  dedupe_step st x = ({[ dedupe_key x ]} ∪ st.1, st.2 ++ [x]).
Proof. intros Hin. unfold dedupe_step. by rewrite decide_False. Qed.

Lemma dedupe_fold (l : list item) :
  ∀ st : gset key * list item,
  (∀ k, k ∈ st.1 ↔ k ∈ dedupe_key <$> st.2) →
  (∀ K, filter (λ x, dedupe_key x = K) (foldl dedupe_step st l).2
        = filter (λ x, dedupe_key x = K) st.2
          ++ (if decide (K ∈ st.1) then []
              else take 1 (filter (λ x, dedupe_key x = K) l)))
  ∧ ∃ l', (foldl dedupe_step st l).2 = st.2 ++ l' ∧ l' `sublist_of` l.
Proof.
  induction l as [|x l IH]; intros st Hinv; simpl.
  - split.
    + intros K. case_decide; by rewrite app_nil_r.
    + exists []. by rewrite app_nil_r.
  - destruct (decide (dedupe_key x ∈ st.1)) as [Hseen|Hnew].
    + rewrite dedupe_step_seen by done.
      destruct (IH st Hinv) as [Hfil (l' & Hl' & Hsub)]. split.
      * intros K. rewrite Hfil. f_equal. case_decide; [done|].
        rewrite filter_cons_False; [done|]. congruence.
      * exists l'. split; [done|]. by apply sublist_cons.
    + rewrite dedupe_step_new by done.
      destruct (IH ({[dedupe_key x]} ∪ st.1, st.2 ++ [x])) as [Hfil (l' & Hl' & Hsub)].
      { intros k. simpl. rewrite fmap_app, elem_of_app, elem_of_union, Hinv.
        simpl. rewrite elem_of_singleton, list_elem_of_singleton. tauto. }
      split.
      * intros K. rewrite Hfil. simpl.
        rewrite filter_app, <- app_assoc. f_equal.
        destruct (decide (dedupe_key x = K)) as [<-|Hne].
        -- rewrite filter_cons_True, filter_nil by done.
           rewrite decide_True by (apply elem_of_union; left; by apply elem_of_singleton).
           rewrite decide_False by done.
           by rewrite filter_cons_True by done.
        -- rewrite (filter_cons_False _ x []), filter_nil by done.
           rewrite (filter_cons_False _ x l) by done. simpl.
           destruct (decide (K ∈ st.1)) as [HK|HK].
           ++ rewrite decide_True; [done|]. apply elem_of_union. by right.
           ++ rewrite decide_False; [done|].
              rewrite elem_of_union, elem_of_singleton. intros [?|?]; congruence.
      * exists (x :: l'). simpl in Hl'. rewrite Hl', <- app_assoc. split; [done|].
        by apply sublist_skip.
Qed.

Lemma dedupe_spec (all_items : list item) :
  (∀ K, filter (λ x, dedupe_key x = K) (dedupe all_items)
        = take 1 (filter (λ x, dedupe_key x = K) all_items))
  ∧ dedupe all_items `sublist_of` all_items.
Proof.
  assert (Hinv : ∀ k : key, k ∈ (∅ : gset key) ↔ k ∈ dedupe_key <$> ([] : list item)).
  { intros k. simpl. split; [by intros ?%not_elem_of_empty|by intros ?%elem_of_nil]. }
  destruct (dedupe_fold all_items (∅, []) Hinv) as [Hfil (l' & Hl' & Hsub)]. split.
  - intros K. unfold dedupe. rewrite Hfil. simpl.
    by rewrite decide_False by apply not_elem_of_empty.
  - unfold dedupe. by rewrite Hl'.
Qed.

(** C5 (dedup, first occurrence wins).  The dedupe loop of [crawl_top_n]
    keys an item by its external id when it has a non-empty one and by
    (title, year) otherwise; for every key the output holds what the batch
    holds under that key cut to its first entry, that is exactly one
    entry, the first occurrence itself, when the key occurs at all; and
    the output is the batch with entries left out, nothing else changed. *)
Theorem dedupe_first_occurrence_wins (all_items : list item) :
  (∀ it i, douban_id it = Some i → i ≠ "" → dedupe_key it = KeyId i)
  ∧ (∀ it, douban_id it = None → dedupe_key it = KeyTitleYear (title it) (year it))
  ∧ (∀ K, filter (λ x, dedupe_key x = K) (dedupe all_items)
          = take 1 (filter (λ x, dedupe_key x = K) all_items))
  ∧ dedupe all_items `sublist_of` all_items.
Proof.
  destruct (dedupe_spec all_items) as [Hfirst Hsub]. split_and!; [| |done|done].
  - intros it i Hi Hne. unfold dedupe_key. rewrite Hi. by rewrite decide_False.
  - intros it Hi. unfold dedupe_key. by rewrite Hi.
Qed.
End batch_dedupe.

Example dedupe_scenario_three :
  Douban.title <$> Douban.dedupe overlapping_pages = ["A"; "B"; "C"]
  ∧ Douban.title <$> Douban.top_n overlapping_pages 2 = ["C"; "A"].
Proof. split; vm_compute; reflexivity. Qed.

(** ** Slices and sorted lists *)
Section slices.

Lemma slice_to_take {A} (l : list A) (n : Z) :
  ∃ k, slice_to l n = take k l ∧ (0 ≤ n → k = Z.to_nat n).
Proof.
  unfold slice_to. destruct (Z.leb_spec 0 n); eexists; split; try done. lia.
Qed.

Lemma StronglySorted_take {A} (R : A → A → Prop) (k : nat) (l : list A) :
  StronglySorted R l → StronglySorted R (take k l).
Proof.
  intros Hl. rewrite <- (take_drop k l) in Hl. by apply StronglySorted_app_1_l in Hl.
Qed.

Lemma StronglySorted_lookup {A} (R : A → A → Prop) (l : list A) (i j : nat) (x y : A) :
  StronglySorted R l → l !! i = Some x → l !! j = Some y → (i < j)%nat → R x y.
Proof.
  intros Hl. revert i j. induction Hl as [|z l Hl IH Hz]; intros i j Hi Hj Hlt.
  - done.
  - destruct j as [|j]; [lia|]. simpl in Hj. destruct i as [|i]; simpl in Hi.
    + injection Hi as ->. rewrite Forall_forall in Hz. apply Hz.
      by eapply list_elem_of_lookup_2.
    + apply (IH i j); [done|done|lia].
Qed.

Lemma slice_to_nil {A} (n : Z) : slice_to ([] : list A) n = [].
Proof. unfold slice_to. destruct (0 <=? n); apply take_nil. Qed.
End slices.

(** ** The extractors *)
Section extractors.
Import Baidu.

(** Induction on parsed JSON, through lists and dicts. *)
Lemma value_ind (P : value → Prop) :
  P JNull → (∀ b, P (JBool b)) → (∀ n, P (JInt n)) → (∀ q, P (JFloat q)) →
  (∀ s, P (JStr s)) →
  (∀ l, Forall P l → P (JList l)) →
  (∀ d, Forall (λ kv, P kv.2) d → P (JDict d)) →
  ∀ v, P v.
Proof.
  intros Hnull Hbool Hint Hfloat Hstr Hlist Hdict.
  fix IH 1. intros [|b|n|q|s|l|d].
  - exact Hnull.
  - apply Hbool.
  - apply Hint.
  - apply Hfloat.
  - apply Hstr.
  - apply Hlist. induction l as [|v l IHl]; constructor; [apply IH|exact IHl].
  - apply Hdict. induction d as [|[k v] d IHd]; constructor; [apply IH|exact IHd].
Qed.

(** C7, as the code has it.  [dig] returns the first list stored under a
    key named "items" in depth-first order, a dict's own key being looked
    at before its values; a tree without such a list, arrays or not,
    gives no result. *)
Theorem dig_first_items (obj : value) : dig obj = head (items_lists obj).
Proof.
  induction obj as [| | | | |l IH|d IH] using value_ind; try done.
  - simpl. induction IH as [|v l Hv _ IHl]; [done|].
    rewrite Hv, IHl. by destruct (items_lists v).
  - simpl. destruct (getitem d "items") as [[| | | | |l|]|]; try done;
      (induction IH as [|[k v] d' Hv _ IHd]; [done|];
       simpl in Hv; rewrite Hv, IHd; by destruct (items_lists v)).
Qed.



(** At a tree that holds an array and no key named "items", [dig] does
    not return the first array. *)
Lemma dig_first_array_fails :
  items_lists tree_without_items = []
  ∧ first_array tree_without_items = Some [JDict [("word", JStr "A")]]
  ∧ dig tree_without_items = None.
Proof. split_and!; reflexivity. Qed.

Lemma parse_entry_Some (i : Z) (it : value) (item : hot_item) :
  parse_entry i it = inr (Some item) → rank item = i ∧ title item ≠ "".
Proof.
  unfold parse_entry. destruct it as [| | | | | |d]; try done.
  destruct (or_ _ _) as [| | | |t| |]; try done.
  destruct (decide (strip t = "")) as [|Hne]; [intros [=]|].
  intros [= <-]. by split.
Qed.

Lemma sorted_snoc (items : list hot_item) (item : hot_item) :
  StronglySorted rank_lt items →
  Forall (λ it, rank it < rank item) items →
  StronglySorted rank_lt (items ++ [item]).
Proof.
  intros Hs Hlt. apply StronglySorted_app_2; [|done|repeat constructor].
  intros x y Hx Hy. apply list_elem_of_singleton in Hy as ->.
  rewrite Forall_forall in Hlt. by apply Hlt.
Qed.

Lemma parse_entries_spec (raw : list value) :
  ∀ (i : Z) (items out : list hot_item),
  Forall (λ it, title it ≠ "") items →
  StronglySorted rank_lt items →
  Forall (λ it, rank it < i) items →
  parse_entries i raw items = inr out →
  Forall (λ it, title it ≠ "") out ∧ StronglySorted rank_lt out.
Proof.
  induction raw as [|it raw IH]; intros i items out Ht Hs Hlt; simpl.
  - by intros [= <-].
  - destruct (parse_entry i it) as [e|[item|]] eqn:Hentry; [done| |].
    + apply parse_entry_Some in Hentry as [Hrank Htitle]. apply IH.
      * apply Forall_app. split; [done|]. by constructor.
      * apply sorted_snoc; [done|]. by rewrite Hrank.
      * apply Forall_app. split.
        -- eapply Forall_impl; [exact Hlt|]. simpl. intros; lia.
        -- constructor; [lia|constructor].
    + apply IH; [done|done|]. eapply Forall_impl; [exact Hlt|]. simpl. intros; lia.
Qed.

Lemma parse_cards_spec `{Scraper} (cards : list card) :
  ∀ (r : Z) (out : list hot_item),
  Forall (λ it, title it ≠ "") out →
  StronglySorted rank_lt out →
  Forall (λ it, rank it < r) out →
  Forall (λ it, title it ≠ "") (parse_cards cards r out)
  ∧ StronglySorted rank_lt (parse_cards cards r out).
Proof.
  induction cards as [|c cards IH]; intros r out Ht Hs Hlt; simpl; [done|].
  destruct (decide (strip _ = "")) as [|Hne]; [by apply IH|].
  apply IH.
  - apply Forall_app. split; [done|]. by constructor.
  - by apply sorted_snoc.
  - apply Forall_app. split.
    + eapply Forall_impl; [exact Hlt|]. simpl. intros; lia.
    + constructor; [simpl; lia|constructor].
Qed.

Lemma parse_from_initial_state_spec `{Scraper} (html : string) (items : list hot_item) :
  parse_from_initial_state html = inr (Some items) →
  Forall (λ it, title it ≠ "") items ∧ StronglySorted rank_lt items.
Proof.
  unfold parse_from_initial_state.
  destruct (search_initial_state html) as [text|]; [|done].
  destruct (loads text) as [data|]; [|done].
  destruct (dig data) as [[|it raw]|]; [done| |done].
  destruct (parse_entries 1 (it :: raw) []) as [e|out] eqn:Hout; [done|].
  intros [= <-]. by eapply parse_entries_spec; [..|exact Hout]; constructor.
Qed.

Lemma parse_from_html_spec `{Scraper} (html : string) :
  Forall (λ it, title it ≠ "") (parse_from_html html)
  ∧ StronglySorted rank_lt (parse_from_html html).
Proof. apply parse_cards_spec; constructor. Qed.

Lemma douban_parse_cards_length `{Douban.Scraper} (divs : list Douban.card) :
  ∀ items out,
  Douban.parse_cards divs items = inr out →
  length out
  = (length items + length (filter (λ c, is_Some (Douban.hd_a c)) divs))%nat.
Proof.
  induction divs as [|c divs IH]; intros items out; simpl.
  - intros [= <-]. simpl. lia.
  - unfold Douban.parse_card. rewrite filter_cons.
    destruct (Douban.hd_a c) as [[[url|] a_text]|]; simpl.
    + destruct (str_split _ _) as [|p0 [|p1 ps]];
        try destruct (Douban.meta_of p1) as [[year countries] genres];
        intros Hout; apply IH in Hout; rewrite length_app in Hout; simpl in *; lia.
    + done.
    + apply IH.
Qed.

Lemma parse_card_empty_title `{Douban.Scraper} :
  ∃ it, Douban.parse_card card_without_title = inr (Some it) ∧ Douban.title it = "".
Proof.
  eexists. split; [reflexivity|reflexivity].
Qed.

(** A card whose title link is empty comes out of [parse_list] with an
    empty title. *)
Lemma parse_list_keeps_empty_title :
  ∃ it, @Douban.parse_list one_card_page "<html>" = inr [it] ∧ Douban.title it = "".
Proof. eexists. split; [vm_compute; reflexivity|reflexivity]. Qed.

(** C8, as the code has it.  Every entry returned by
    [parse_from_initial_state] and by [parse_from_html] has a non-empty
    title; [parse_list] returns one item per card that has a title link,
    whatever the title. *)
Theorem extracted_titles_nonempty (SB : Baidu.Scraper) (SD : Douban.Scraper)
    (html : string) :
  (∀ items, parse_from_initial_state html = inr (Some items) →
     Forall (λ it, title it ≠ "") items)
  ∧ Forall (λ it, title it ≠ "") (parse_from_html html)
  ∧ (∀ items, Douban.parse_list html = inr items →
       length items
       = length (filter (λ c, is_Some (Douban.hd_a c)) (Douban.select_items html))).
Proof.
  split_and!.
  - intros items Hitems. by apply parse_from_initial_state_spec in Hitems as [? _].
  - apply parse_from_html_spec.
  - intros items Hitems. unfold Douban.parse_list in Hitems.
    by apply douban_parse_cards_length in Hitems.
Qed.




(** C10 (empty batch).  When no item has a non-empty title, [save_items]
    returns 0 and leaves the store as it was, its log of sent statements
    included. *)
Theorem save_items_empty_noop (now : Z) (items : list hot_item) (s : db) :
  Forall (λ it, title it = "") items →
  save_items now items s = Ok 0 s.
Proof.
  intros Hall. unfold save_items.
  assert (filter (λ it, title it ≠ "") items = []) as ->; [|done].
  induction Hall as [|it items Hit _ IH]; [done|].
  by rewrite filter_cons_False by (by intros ?).
Qed.

Lemma save_items_empty_noop_witness :
  save_items 100 [HotItem 1 "" JNull; HotItem 2 "" (JStr "/s?wd=")] Douban.schema
  = Ok 0 Douban.schema.
Proof.
  apply (save_items_empty_noop 100 [HotItem 1 "" JNull; HotItem 2 "" (JStr "/s?wd=")]).
  repeat constructor.
Defined.

End extractors.

Example structured_strategy_scenario :
  @Baidu.get_top_n embedded_board 2
  = inr [Baidu.HotItem 1 "A" (JStr "/s?wd=A"); Baidu.HotItem 3 "B" (JStr "/s?wd=B")].
Proof. vm_compute. reflexivity. Qed.

(** An entry that is no dict is neither a non-match nor a [json.loads]
    failure: its [AttributeError] leaves the extractor. *)
Example malformed_entry_raises :
  @Baidu.parse_from_initial_state malformed_board "<html>" = inl AttributeError
  ∧ @Baidu.get_top_n malformed_board 10 = inl AttributeError.
Proof. split; reflexivity. Qed.

Lemma extracted_titles_nonempty_witness :
  Forall (λ it, Baidu.title it ≠ "")
    [Baidu.HotItem 1 "A" (JStr "/s?wd=A"); Baidu.HotItem 3 "B" (JStr "/s?wd=B")].
Proof.
  destruct (extracted_titles_nonempty embedded_board one_card_page "<html>") as [H _].
  apply H. reflexivity.
Defined.

(** ** Sorting by rank and cutting to the limit *)
Section ranking.
Import Douban.

Lemma insert_sorted_perm (x : item) (l : list item) : insert_sorted x l ≡ₚ x :: l.
Proof.
  induction l as [|y l IH]; simpl; [done|].
  destruct (sort_key x <=? sort_key y); [done|].
  rewrite IH. apply Permutation_swap.
Qed.

Lemma sort_perm (l : list item) : sort l ≡ₚ l.
Proof.
  induction l as [|x l IH]; simpl; [done|].
  by rewrite insert_sorted_perm, IH.
Qed.

Lemma insert_sorted_sorted (x : item) (l : list item) :
  StronglySorted rank_le l → StronglySorted rank_le (insert_sorted x l).
Proof.
  induction 1 as [|y l Hl IH Hy]; simpl.
  - repeat constructor.
  - destruct (Z.leb_spec (sort_key x) (sort_key y)) as [Hle|Hgt].
    + constructor; [by constructor|]. constructor; [done|].
      eapply Forall_impl; [exact Hy|]. unfold rank_le. intros z Hz. simpl in Hz. lia.
    + constructor; [done|]. rewrite insert_sorted_perm.
      constructor; [|done]. unfold rank_le. lia.
Qed.

Lemma sort_sorted (l : list item) : StronglySorted rank_le (sort l).
Proof.
  induction l as [|x l IH]; simpl; [constructor|]. by apply insert_sorted_sorted.
Qed.

(** Items of equal key keep their order: the sort is the stable one. *)
Lemma insert_sorted_stable (k : Z) (x : item) (l : list item) :
  filter (λ y, sort_key y = k) (insert_sorted x l)
  = filter (λ y, sort_key y = k) (x :: l).
Proof.
  induction l as [|y l IH]; simpl; [done|].
  destruct (Z.leb_spec (sort_key x) (sort_key y)) as [Hle|Hgt]; [done|].
  rewrite (filter_cons _ y), IH, !(filter_cons _ x), !(filter_cons _ y).
  destruct (decide (sort_key y = k)), (decide (sort_key x = k)); try done. lia.
Qed.

Lemma sort_stable (k : Z) (l : list item) :
  filter (λ y, sort_key y = k) (sort l) = filter (λ y, sort_key y = k) l.
Proof.
  induction l as [|x l IH]; simpl; [done|].
  by rewrite insert_sorted_stable, !(filter_cons _ x), IH.
Qed.

Lemma crawl_top_n_top_n `{Scraper} (n : Z) (out : list item) :
  crawl_top_n n = inr out → ∃ all_items, out = top_n all_items n.
Proof.
  unfold crawl_top_n. destruct (crawl_pages _ _) as [e|all_items]; [done|].
  intros [= <-]. by exists all_items.
Qed.

Lemma top_n_spec (all_items : list item) (n : Z) :
  StronglySorted rank_le (top_n all_items n)
  ∧ (∀ i j x y, top_n all_items n !! i = Some x → top_n all_items n !! j = Some y →
       rank_no x = None → sort_key y < 9999 → (j < i)%nat)
  ∧ (∃ rest, top_n all_items n ++ rest ≡ₚ dedupe all_items)
  ∧ (0 ≤ n → top_n all_items n = take (Z.to_nat n) (sort (dedupe all_items))
             ∧ Z.of_nat (length (top_n all_items n)) ≤ n).
Proof.
  unfold top_n.
  destruct (slice_to_take (sort (dedupe all_items)) n) as (k & -> & Hk).
  assert (Hs : StronglySorted rank_le (take k (sort (dedupe all_items))))
    by apply StronglySorted_take, sort_sorted.
  split_and!.
  - done.
  - intros i j x y Hi Hj Hx Hy.
    assert (Hkey : sort_key x = 9999) by (unfold sort_key; by rewrite Hx).
    destruct (decide (j < i)%nat) as [|Hge]; [done|].
    destruct (decide (i = j)) as [->|Hne].
    + rewrite Hi in Hj. injection Hj as ->. lia.
    + pose proof (StronglySorted_lookup rank_le _ i j x y Hs Hi Hj ltac:(lia)) as Hle.
      unfold rank_le in Hle. lia.
  - exists (drop k (sort (dedupe all_items))). by rewrite take_drop, sort_perm.
  - intros Hn. rewrite (Hk Hn). split; [done|]. rewrite length_take. lia.
Qed.



End ranking.


(** * Further properties of the code *)

(** ** More on rows with a unique key *)
Section keyed_more.
Context {A K : Type} `{EqDecision K} (key : A → K).


(** Keys are distinct when no key holds two rows. *)
Lemma NoDup_keys_filter (l : list A) :
  (∀ k, (length (filter (λ x, key x = k) l) ≤ 1)%nat) → NoDup (key <$> l).
Proof.
  induction l as [|x l IH]; intros Hone; [constructor|].
  rewrite fmap_cons. constructor.
  - intros Hin. apply list_elem_of_fmap in Hin as (y & Heq & Hy).
    specialize (Hone (key x)). rewrite filter_cons_True in Hone by done.
    simpl in Hone.
    assert (y ∈ filter (λ z, key z = key x) l) as Hy' by by apply list_elem_of_filter.
    destruct (filter _ l); [by apply elem_of_nil in Hy'|simpl in Hone; lia].
  - apply IH. intros k. specialize (Hone k). rewrite filter_cons in Hone.
    destruct (decide (key x = k)); simpl in Hone; lia.
Qed.
End keyed_more.

(** ** [upsert_movie] beyond the row it writes *)
Section movie_writes.
Import MySQL Douban.

(** The store a successful upsert leaves. *)
Lemma upsert_movie_state (s : db) (now : Z) (m : item) (k : string) (r : Z) :
  douban_id m = Some k → rank_no m = Some r →
  uk_douban s →
  ∃ id,
    upsert_movie now m s
    = Ok id (with_log
               (with_movies s
                  (upsert_movie_row (douban_movies s) k r (title m) (original_title m)
                     (year m) (rating m) (votes m) (director m) (Some (url m)) now).2)
               (log s ++ [UPSERT_MOVIE_SQL (Some k) (Some r) (Some (title m))
                            (original_title m) (year m) (rating m) (votes m)
                            (director m) (Some (url m)) now;
                          SELECT_MOVIE_ID (Some k)])).
Proof.
  intros Hk Hr Hnd.
  destruct (upsert_movie_row_spec (douban_movies s) k r (title m)
              (original_title m) (year m) (rating m) (votes m) (director m)
              (Some (url m)) now Hnd) as (id & row & Hrow & Hfilter & _ & _).
  unfold upsert_movie, execute_non_query, execute_query, send.
  unfold mbind, M_bind, mret, M_ret. simpl. rewrite Hk, Hr. simpl.
  destruct (upsert_movie_row _ _ _ _ _ _ _ _ _ _ _) as [o t'] eqn:Hup.
  simpl in *. rewrite Hfilter. simpl.
  unfold fetch_field. simpl. rewrite lookup_singleton_eq.
  exists (mv_id row). unfold mret, M_ret. f_equal.
  unfold with_log, with_movies. simpl. by rewrite <- app_assoc.
Qed.

(** Without a key or without a rank the insert is rejected. *)
Lemma upsert_movie_raises (s : db) (now : Z) (m : item) :
  ¬ (is_Some (douban_id m) ∧ is_Some (rank_no m)) →
  upsert_movie now m s
  = Raise (IntegrityError 1048)
      (with_log s (log s ++ [UPSERT_MOVIE_SQL (douban_id m) (rank_no m)
                               (Some (title m)) (original_title m) (year m)
                               (rating m) (votes m) (director m)
                               (Some (url m)) now])).
Proof.
  intros Hno. unfold upsert_movie, execute_non_query, send, mbind, M_bind. simpl.
  destruct (douban_id m) as [k|], (rank_no m) as [r|]; try done.
  destruct Hno. split; eauto.
Qed.

Lemma upsert_movie_Ok_inv (s : db) (now : Z) (m : item) (id : Z) (s' : db) :
  upsert_movie now m s = Ok id s' →
  ∃ k r, douban_id m = Some k ∧ rank_no m = Some r.
Proof.
  intros Hrun.
  destruct (decide (is_Some (douban_id m) ∧ is_Some (rank_no m)))
    as [[[k Hk] [r Hr]]|Hno]; [eauto|].
  rewrite (upsert_movie_raises s now m Hno) in Hrun. discriminate.
Qed.

Lemma upsert_movie_row_pk (t : table movie_row) k r ti ot y ra v d u g :
  NoDup (mv_id <$> rows t) →
  Forall (λ row, mv_id row < auto_increment t) (rows t) →
  NoDup (mv_id <$> rows (upsert_movie_row t k r ti ot y ra v d u g).2)
  ∧ Forall (λ row, mv_id row
                   < auto_increment (upsert_movie_row t k r ti ot y ra v d u g).2)
      (rows (upsert_movie_row t k r ti ot y ra v d u g).2).
Proof.
  intros Hnd Hlt. unfold upsert_movie_row.
  destruct (list_find _ _) as [[i old]|] eqn:Hfind; simpl.
  - apply list_find_Some in Hfind as (Hi & Hold & _).
    assert (Hids : mv_id <$> <[i:=MovieRow (mv_id old) k r ti ot y ra v d u
                                (mv_poster_url old) (mv_summary old) g]> (rows t)
                   = mv_id <$> rows t).
    { rewrite list_fmap_insert. apply list_insert_id.
      by rewrite list_lookup_fmap, Hi. }
    split; [by rewrite Hids|].
    rewrite Forall_forall in *. intros row Hrow.
    assert (Hin : mv_id row ∈ mv_id <$> rows t).
    { rewrite <- Hids. apply list_elem_of_fmap. eauto. }
    apply list_elem_of_fmap in Hin as (row' & -> & Hrow'). specialize (Hlt row' Hrow'). lia.
  - split.
    + rewrite fmap_app. apply NoDup_app. split_and!; [done| |apply NoDup_singleton].
      intros x Hx Hx'. apply list_elem_of_singleton in Hx'. simpl in Hx'. subst.
      apply list_elem_of_fmap in Hx as (row & Heq & Hrow).
      rewrite Forall_forall in Hlt. specialize (Hlt row Hrow). lia.
    + apply Forall_app. split.
      * eapply Forall_impl; [exact Hlt|]. simpl. intros; lia.
      * constructor; [simpl; lia|constructor].
Qed.


(** The primary key of [douban_movies] survives every call, returning or
    raising: ids stay distinct and below the counter. *)
Theorem upsert_movie_keeps_primary_key (s : db) (now : Z) (m : item) :
  uk_douban s → pk_movies s →
  pk_movies (final (upsert_movie now m s)).
Proof.
  intros Huk [Hnd Hlt].
  destruct (douban_id m) as [k|] eqn:Hk; [destruct (rank_no m) as [r|] eqn:Hr|].
  - destruct (upsert_movie_state s now m k r Hk Hr Huk) as (id & ->). simpl.
    by apply upsert_movie_row_pk.
  - unfold upsert_movie, execute_non_query, send, mbind, M_bind. simpl.
    rewrite Hk, Hr. simpl. by split.
  - unfold upsert_movie, execute_non_query, send, mbind, M_bind. simpl.
    rewrite Hk. simpl. by split.
Qed.



(** Writing the same record with the same timestamp a second time returns
    the same id and leaves every row of every table as the first call left
    it (only the counter and the log move). *)
Theorem upsert_movie_idempotent (s : db) (now : Z) (m : item) (id : Z) (s1 : db) :
  uk_douban s →
  upsert_movie now m s = Ok id s1 →
  ∃ s2,
    upsert_movie now m s1 = Ok id s2
    ∧ rows (douban_movies s2) = rows (douban_movies s1)
    ∧ dims s2 = dims s1 ∧ maps s2 = maps s1
    ∧ test_users s2 = test_users s1 ∧ baidu_hotsearch s2 = baidu_hotsearch s1.
Proof.
  intros Huk Hrun.
  destruct (upsert_movie_Ok_inv s now m id s1 Hrun) as (k & r & Hk & Hr).
  destruct (upsert_movie_ok s now m k Huk Hk (ex_intro _ r Hr))
    as (row & s1' & Hrun1 & Hrows1 & Hst & Huk1 & _).
  rewrite Hrun in Hrun1. injection Hrun1 as -> <-.
  destruct (upsert_movie_state s1 now m k r Hk Hr Huk1) as (id2 & Hrun2).
  destruct (upsert_movie_ok s1 now m k Huk1 Hk (ex_intro _ r Hr))
    as (row2 & s2 & Hrun2' & _ & _ & _ & Hsame).
  assert (Hin : row ∈ rows (douban_movies s1) ∧ mv_douban_id row = k).
  { assert (H : row ∈ movies_with k s1) by (rewrite Hrows1; left).
    apply list_elem_of_filter in H. tauto. }
  destruct Hin as [Hin Hkey].
  rewrite (Hsame row Hin Hkey) in Hrun2'. rewrite Hrun2' in Hrun2.
  injection Hrun2 as _ Hs2. exists s2. split; [done|]. rewrite Hs2. simpl.
  split; [|done]. unfold upsert_movie_row.
  destruct (list_find _ _) as [[i old]|] eqn:Hfind; simpl.
  - apply list_insert_id.
    apply list_find_Some in Hfind as (Hi & Hold & _). rewrite Hi. f_equal.
    assert (old = row) as ->.
    { eapply (key_inj mv_douban_id); eauto. by eapply list_elem_of_lookup_2. congruence. }
    destruct Hst as (Hk' & Hr' & ? & ? & ? & ? & ? & ? & ? & ?).
    destruct row; simpl in *. rewrite Hk in Hk'. rewrite Hr in Hr'.
    injection Hk' as ->. injection Hr' as ->. congruence.
  - apply list_find_key_None in Hfind. destruct Hfind.
    apply list_elem_of_fmap. eauto.
Qed.
End movie_writes.


Lemma upsert_movie_keeps_primary_key_witness :
  pk_movies (final (Douban.upsert_movie 200 movie_X2 two_movies))
  ∧ pk_movies (final (Douban.upsert_movie 200 movie_without_id two_movies)).
Proof.
  assert (Huk : Douban.uk_douban two_movies)
    by (refine (bool_decide_unpack _ _); vm_compute; exact I).
  assert (Hpk : pk_movies two_movies).
  { split; [refine (bool_decide_unpack _ _); vm_compute; exact I|].
    repeat constructor. }
  split.
  - exact (upsert_movie_keeps_primary_key two_movies 200 movie_X2 Huk Hpk).
  - exact (upsert_movie_keeps_primary_key two_movies 200 movie_without_id Huk Hpk).
Defined.



Lemma upsert_movie_idempotent_witness :
  ∃ s2,
    Douban.upsert_movie 200 movie_X2
      (final (Douban.upsert_movie 200 movie_X2 two_movies)) = Ok 1 s2
    ∧ rows (douban_movies s2)
      = rows (douban_movies (final (Douban.upsert_movie 200 movie_X2 two_movies)))
    ∧ dims s2 = dims (final (Douban.upsert_movie 200 movie_X2 two_movies))
    ∧ maps s2 = maps (final (Douban.upsert_movie 200 movie_X2 two_movies))
    ∧ test_users s2
      = test_users (final (Douban.upsert_movie 200 movie_X2 two_movies))
    ∧ baidu_hotsearch s2
      = baidu_hotsearch (final (Douban.upsert_movie 200 movie_X2 two_movies)).
Proof.
  apply (upsert_movie_idempotent two_movies 200 movie_X2 1).
  - refine (bool_decide_unpack _ _). vm_compute. exact I.
  - vm_compute. reflexivity.
Defined.

(** ** The cleaning of names, and what [ensure_dim_and_map] leaves alone *)
Section names.
Import MySQL Douban Crawl.

Lemma clean_step_spec (l : list (option string)) :
  ∀ st : gset string * list string,
  (∀ x, x ∈ st.1 ↔ x ∈ st.2) → NoDup st.2 →
  NoDup (foldl clean_step st l).2
  ∧ (∀ x, x ∈ (foldl clean_step st l).2
          ↔ x ∈ st.2 ∨ (x ≠ "" ∧ ∃ n, n ∈ l ∧ cleaned n = x))
  ∧ ∃ l', (foldl clean_step st l).2 = st.2 ++ l' ∧ l' `sublist_of` (cleaned <$> l).
Proof.
  induction l as [|n l IH]; intros st Hseen Hnd; simpl.
  - split_and!; [done| |exists []; by rewrite app_nil_r].
    intros x. split; [by left|]. intros [?|(_ & n & Hn & _)]; [done|].
    by apply elem_of_nil in Hn.
  - assert (Hstep : clean_step st n = st ∧ (cleaned n = "" ∨ cleaned n ∈ st.2)
                    ∨ clean_step st n = ({[cleaned n]} ∪ st.1, st.2 ++ [cleaned n])
                      ∧ cleaned n ≠ "" ∧ cleaned n ∉ st.2).
    { unfold clean_step. fold (cleaned n). rewrite <- Hseen.
      repeat case_decide; auto. }
    destruct Hstep as [[-> Hskip]|(-> & Hne & Hnew)].
    + destruct (IH st Hseen Hnd) as (Hnd' & Hmem & l' & Hl' & Hsub).
      split_and!; [done| |].
      * intros x. rewrite Hmem. split.
        -- intros [?|(? & n' & ? & ?)]; [by left|]. right. split; [done|].
           exists n'. split; [by right|done].
        -- intros [?|(Hx & n' & [->|Hn']%elem_of_cons & Heq)]; [by left| |].
           ++ destruct Hskip as [Hskip|Hskip]; [congruence|]. left. congruence.
           ++ right. eauto.
      * exists l'. split; [done|]. by apply sublist_cons.
    + destruct (IH ({[cleaned n]} ∪ st.1, st.2 ++ [cleaned n]))
        as (Hnd' & Hmem & l' & Hl' & Hsub).
      { intros x. simpl. rewrite elem_of_union, elem_of_singleton, elem_of_app,
          list_elem_of_singleton, Hseen. tauto. }
      { simpl. apply NoDup_app. split_and!; [done| |apply NoDup_singleton].
        intros x Hx Hx'. apply list_elem_of_singleton in Hx'. by subst. }
      split_and!; [done| |].
      * intros x. rewrite Hmem. simpl. rewrite elem_of_app, list_elem_of_singleton.
        split.
        -- intros [[?| ->]|(? & n' & ? & ?)]; [by left| |].
           ++ right. split; [done|]. exists n. split; [left|done].
           ++ right. split; [done|]. exists n'. split; [by right|done].
        -- intros [?|(Hx & n' & [->|Hn']%elem_of_cons & Heq)]; [by left; left| |].
           ++ left. by right.
           ++ right. eauto.
      * exists (cleaned n :: l'). simpl in Hl'. rewrite Hl', <- app_assoc.
        split; [done|]. by apply sublist_skip.
Qed.


(** When every given name is missing or blank, or no list is given, the
    call returns at once: no statement is sent and no cursor is opened,
    whatever the tables are, existing or not. *)
Theorem ensure_dim_and_map_blank_names (s : db) (movie_id : Z)
    (names : option (list (option string))) (dim_table map_table map_fk_col : string) :
  (∀ n, n ∈ default [] names → cleaned n = "") →
  ensure_dim_and_map movie_id names dim_table map_table map_fk_col s = Ok () s.
Proof.
  intros Hblank. unfold ensure_dim_and_map, clean_names.
  destruct (clean_step_spec (default [] names) (∅, [])) as (_ & Hmem & _).
  { intros x. simpl. split; [by intros ?%not_elem_of_empty|by intros ?%elem_of_nil]. }
  { constructor. }
  destruct (foldl clean_step (∅, []) (default [] names)).2 as [|c cs]; [done|].
  destruct (proj1 (Hmem c) ltac:(left)) as [Hnil|(Hne & n & Hn & Hc)].
  - by apply elem_of_nil in Hnil.
  - destruct Hne. rewrite <- Hc. by apply Hblank.
Qed.






End names.

Lemma ensure_dim_and_map_blank_names_witness :
  Douban.ensure_dim_and_map 7 (Some [None; Some "  "; Some ""])
    "no_such_table" "douban_movie_genre" "genre_id" two_movies
  = Ok () two_movies.
Proof.
  apply (ensure_dim_and_map_blank_names two_movies 7 (Some [None; Some "  "; Some ""])).
  intros n Hn. repeat (apply elem_of_cons in Hn as [->|Hn]; [reflexivity|]).
  by apply elem_of_nil in Hn.
Defined.



(** ** The crawl: dedupe, selection, pages *)
Section selection.
Import Douban Crawl.

(** The keys after the dedupe: distinct, and those of the input. *)
Lemma dedupe_keys (l : list item) :
  NoDup (dedupe_key <$> dedupe l)
  ∧ ∀ k, k ∈ dedupe_key <$> dedupe l ↔ k ∈ dedupe_key <$> l.
Proof.
  destruct (dedupe_spec l) as [Hfirst Hsub]. split.
  - apply NoDup_keys_filter. intros k. rewrite Hfirst, length_take. lia.
  - intros k. split.
    + intros Hin. eapply elem_of_sublist; [exact Hin|]. by apply fmap_sublist.
    + intros Hin. apply list_elem_of_fmap in Hin as (x & -> & Hx).
      assert (Hx' : x ∈ filter (λ y, dedupe_key y = dedupe_key x) l)
        by by apply list_elem_of_filter.
      specialize (Hfirst (dedupe_key x)).
      destruct (filter (λ y, dedupe_key y = dedupe_key x) l) as [|y ys] eqn:Hf;
        [by apply elem_of_nil in Hx'|].
      simpl in Hfirst. rewrite take_0 in Hfirst.
      assert (Hy : y ∈ filter (λ y, dedupe_key y = dedupe_key x) (dedupe l))
        by (rewrite Hfirst; left).
      apply list_elem_of_filter in Hy as [Hk Hy].
      apply list_elem_of_fmap. eauto.
Qed.

(** A batch of distinct keys passes unchanged. *)
Lemma dedupe_distinct (l : list item) :
  NoDup (dedupe_key <$> l) → dedupe l = l.
Proof.
  intros Hnd. unfold dedupe.
  assert (Hgen : ∀ (st : gset key * list item),
            (∀ k, k ∈ st.1 ↔ k ∈ dedupe_key <$> st.2) →
            (∀ x, x ∈ l → dedupe_key x ∉ st.1) →
            (foldl dedupe_step st l).2 = st.2 ++ l).
  { induction l as [|x l IH]; intros st Hinv Hfresh; simpl; [by rewrite app_nil_r|].
    apply NoDup_cons in Hnd as [Hx Hnd].
    rewrite dedupe_step_new by (apply Hfresh; left).
    rewrite IH; [simpl; by rewrite <- app_assoc|done| |].
    - intros k. simpl. rewrite fmap_app, elem_of_app, elem_of_union, Hinv.
      simpl. rewrite elem_of_singleton, list_elem_of_singleton. tauto.
    - intros y Hy. simpl. rewrite elem_of_union, elem_of_singleton.
      intros [Heq|Hin]; [|by apply (Hfresh y); [right|]].
      apply Hx. rewrite <- Heq. apply list_elem_of_fmap. eauto. }
  rewrite Hgen; [done| |].
  - intros k. simpl. split; [by intros ?%not_elem_of_empty|by intros ?%elem_of_nil].
  - intros x _. apply not_elem_of_empty.
Qed.

(** The in-batch dedupe leaves pairwise distinct keys, loses no key,
    returns a batch of distinct keys as it is, and so changes nothing
    when applied again. *)
Theorem dedupe_keys_distinct (all_items : list item) :
  NoDup (dedupe_key <$> dedupe all_items)
  ∧ (∀ k, k ∈ dedupe_key <$> dedupe all_items ↔ k ∈ dedupe_key <$> all_items)
  ∧ (NoDup (dedupe_key <$> all_items) → dedupe all_items = all_items)
  ∧ dedupe (dedupe all_items) = dedupe all_items.
Proof.
  destruct (dedupe_keys all_items) as [Hnd Hmem].
  split_and!; [done|done|apply dedupe_distinct|by apply dedupe_distinct].
Qed.

(** Sorting a sorted list changes nothing. *)
Lemma sort_sorted_id (l : list item) : StronglySorted rank_le l → sort l = l.
Proof.
  induction 1 as [|x l Hl IH Hx]; simpl; [done|].
  rewrite IH. destruct l as [|y l]; simpl; [done|].
  apply Forall_cons in Hx as [Hxy _]. unfold rank_le in Hxy.
  by destruct (Z.leb_spec (sort_key x) (sort_key y)); [|lia].
Qed.

(** Selecting the top [n] of an already selected batch gives it back. *)
Lemma top_n_idempotent (all_items : list item) (n : Z) :
  0 ≤ n → top_n (top_n all_items n) n = top_n all_items n.
Proof.
  intros Hn. destruct (top_n_spec all_items n) as (Hs & _ & _ & Htake).
  destruct (Htake Hn) as [Heq _].
  unfold top_n at 1. rewrite dedupe_distinct, sort_sorted_id; [|done|].
  - unfold slice_to. destruct (Z.leb_spec 0 n); [|lia].
    by rewrite Heq, take_idemp.
  - rewrite Heq. eapply sublist_NoDup; [|by apply fmap_sublist, sublist_take].
    rewrite sort_perm. apply dedupe_keys.
Qed.

End selection.

Section crawl_pages.
Import Douban Crawl.
Context `{Scraper}.

(** The page loop when every page is there. *)
Lemma crawl_pages_ok (f : Z → list item) (starts : list Z) :
  ∀ acc, (∀ start, start ∈ starts → page start = inr (f start)) →
  crawl_pages starts acc = inr (acc ++ (starts ≫= f)).
Proof.
  induction starts as [|st starts IH]; intros acc Hall; simpl.
  - by rewrite app_nil_r.
  - pose proof (Hall st ltac:(left)) as Hst. unfold page in Hst.
    destruct (fetch_list_page st) as [e|html]; [done|]. rewrite Hst.
    rewrite IH by (intros; apply Hall; by right). by rewrite app_assoc.
Qed.

(** The page loop up to the first page that fails. *)
Lemma crawl_pages_fail (f : Z → list item) (before after : list Z) (start : Z) (e : exn) :
  ∀ acc, (∀ st, st ∈ before → page st = inr (f st)) →
  page start = inl e →
  crawl_pages (before ++ start :: after) acc = inl e.
Proof.
  induction before as [|st before IH]; intros acc Hall Hfail; simpl.
  - unfold page in Hfail. destruct (fetch_list_page start) as [e'|html]; [done|].
    by rewrite Hfail.
  - pose proof (Hall st ltac:(left)) as Hst. unfold page in Hst.
    destruct (fetch_list_page st) as [e'|html]; [done|]. rewrite Hst.
    apply IH; [|done]. intros; apply Hall; by right.
Qed.

Lemma range_split (n i : Z) :
  0 ≤ i < n → range n = range i ++ i :: ((λ j, i + 1 + j) <$> range (n - i - 1)).
Proof.
  intros Hi. unfold range.
  replace (Z.to_nat n) with (Z.to_nat i + S (Z.to_nat (n - i - 1)))%nat by lia.
  rewrite seq_app, fmap_app. f_equal. rewrite Nat.add_0_l. simpl. f_equal; [lia|].
  replace (S (Z.to_nat i)) with (S (Z.to_nat i) + 0)%nat by lia.
  rewrite <- fmap_add_seq, <- !list_fmap_compose.
  apply list_fmap_ext. intros _ j _. simpl. lia.
Qed.

Lemma elem_of_range (n i : Z) : i ∈ range n ↔ 0 ≤ i < n.
Proof.
  unfold range. rewrite list_elem_of_fmap. split.
  - intros (j & -> & Hj). apply elem_of_seq in Hj. lia.
  - intros Hi. exists (Z.to_nat i). split; [lia|]. apply elem_of_seq. lia.
Qed.

(** For [n <= 0] no page is requested and the result is empty, whatever
    the site answers. *)
Lemma crawl_top_n_nothing_asked (n : Z) : n ≤ 0 → crawl_top_n n = inr [].
Proof.
  intros Hn. unfold crawl_top_n.
  assert (Hp : (n + 24) `div` 25 ≤ 0).
  { pose proof (Z.div_mod (n + 24) 25 ltac:(lia)).
    pose proof (Z.mod_pos_bound (n + 24) 25 ltac:(lia)). lia. }
  unfold range. replace (Z.to_nat _) with 0%nat by lia. simpl.
  unfold top_n, dedupe. simpl. apply f_equal, slice_to_nil.
Qed.

(** When each of the [(n + 24) // 25] pages at offsets 0, 25, 50, ...
    below [n] is fetched and parsed, [crawl_top_n] returns the top [n] of
    their items taken in page order; this is the empty list when [n <= 0],
    no page being requested then. *)
Theorem crawl_top_n_all_pages (n : Z) (f : Z → list item) :
  (∀ i, 0 ≤ i → 25 * i < n → page (25 * i) = inr (f i)) →
  crawl_top_n n = inr (top_n (range ((n + 24) `div` 25) ≫= f) n)
  ∧ (n ≤ 0 → crawl_top_n n = inr []).
Proof.
  intros Hall. split; [|apply crawl_top_n_nothing_asked]. unfold crawl_top_n.
  rewrite (crawl_pages_ok (λ start, f (start `div` 25))).
  - rewrite app_nil_l. do 2 f_equal. induction (range _) as [|i l IH]; [done|].
    rewrite fmap_cons, !bind_cons, IH, Z.div_mul by lia. done.
  - intros start (i & -> & Hi%elem_of_range)%list_elem_of_fmap.
    rewrite Z.div_mul by lia. rewrite <- (Hall i); [f_equal; lia|lia|].
    assert (i * 25 < ((n + 24) `div` 25) * 25) by lia.
    pose proof (Z.mul_div_le (n + 24) 25). lia.
Qed.

(** The first page that cannot be fetched or parsed ends the crawl with
    its exception: nothing of the earlier pages is returned. *)
Theorem crawl_top_n_first_failure (n i : Z) (e : exn) :
  0 ≤ i → 25 * i < n →
  (∀ j, 0 ≤ j < i → ∃ items, page (25 * j) = inr items) →
  page (25 * i) = inl e →
  crawl_top_n n = inl e.
Proof.
  intros Hi Hn Hbefore Hfail. unfold crawl_top_n.
  assert (Hlt : 0 ≤ i < (n + 24) `div` 25).
  { split; [done|].
    pose proof (Z.div_mod (n + 24) 25 ltac:(lia)).
    pose proof (Z.mod_pos_bound (n + 24) 25 ltac:(lia)). lia. }
  rewrite (range_split _ i Hlt), fmap_app, fmap_cons.
  rewrite (crawl_pages_fail
             (λ start, match page start with inr l => l | inl _ => [] end) _ _ _ e); [done| |].
  - intros st (j & -> & Hj%elem_of_range)%list_elem_of_fmap.
    destruct (Hbefore j Hj) as [items Hitems].
    replace (j * 25) with (25 * j) by lia. by rewrite Hitems.
  - by replace (i * 25) with (25 * i) by lia.
Qed.




End crawl_pages.

Lemma crawl_top_n_all_pages_witness :
  @Douban.crawl_top_n two_page_site 30
  = inr (Douban.top_n (range 2 ≫= λ i, if decide (i = 0) then [item_A] else [item_B]) 30)
  ∧ (30 ≤ 0 → @Douban.crawl_top_n two_page_site 30 = inr []).
Proof.
  apply (@crawl_top_n_all_pages two_page_site 30
           (λ i, if decide (i = 0) then [item_A] else [item_B])).
  intros i H0 H1. assert (i = 0 ∨ i = 1) as [->| ->] by lia; vm_compute; reflexivity.
Defined.

Lemma crawl_top_n_first_failure_witness :
  @Douban.crawl_top_n failing_site 30 = inl RequestException.
Proof.
  apply (@crawl_top_n_first_failure failing_site 30 1 RequestException).
  - lia.
  - lia.
  - intros j Hj. assert (j = 0) as -> by lia. eexists. vm_compute. reflexivity.
  - vm_compute. reflexivity.
Defined.

(** ** The two strategies of the hot-search scraper *)
Section board_parsers.
Import MySQL Baidu Board.
Context `{Scraper}.

(** The loop of [parse_from_html] from rank [r] on. *)
Lemma parse_cards_ranks (cards : list card) :
  ∀ (r : Z) (out : list hot_item),
  ∃ new, parse_cards cards r out = out ++ new
         ∧ title <$> new = filter (λ t, t ≠ "") (card_title <$> cards)
         ∧ rank <$> new = (λ i : nat, r + Z.of_nat i) <$> seq 0 (length new).
Proof.
  induction cards as [|c cards IH]; intros r out; simpl.
  - exists []. by rewrite app_nil_r.
  - rewrite filter_cons. fold (card_title c).
    destruct (decide (card_title c = "")) as [Heq|Hne].
    + rewrite decide_False by (by intros ?). apply IH.
    + rewrite decide_True by done.
      destruct (IH (r + 1) (out ++ [HotItem r (card_title c)
                  match first_href c with
                  | Some href => JStr (urljoin BAIDU_REALTIME_URL href)
                  | None => JNull
                  end])) as (new & -> & Ht & Hr).
      eexists (_ :: new). rewrite <- app_assoc. split; [done|].
      rewrite !fmap_cons, Ht, Hr. split; [done|].
      cbn [length seq]. rewrite fmap_cons. f_equal; [simpl; lia|].
      rewrite <- (fmap_S_seq 0), <- list_fmap_compose.
      apply list_fmap_ext. intros _ i _. simpl. lia.
Qed.

(** The HTML strategy numbers the entries it keeps 1, 2, 3, ... without
    a gap: a card with a blank title takes no rank.  The titles are the
    non-empty card titles in page order. *)
Theorem parse_from_html_ranks_consecutive (html : string) :
  title <$> parse_from_html html
    = filter (λ t, t ≠ "") (card_title <$> select_cards html)
  ∧ rank <$> parse_from_html html
    = (λ i : nat, 1 + Z.of_nat i) <$> seq 0 (length (parse_from_html html)).
Proof.
  unfold parse_from_html.
  destruct (parse_cards_ranks (select_cards html) 1 []) as (new & -> & Ht & Hr).
  by rewrite app_nil_l.
Qed.

(** What [parse_entry] does with an entry does not depend on its position,
    apart from the rank it records. *)
Lemma parse_entry_index (i j : Z) (v : value) :
  match parse_entry i v with
  | inl e => e = AttributeError ∧ parse_entry j v = inl AttributeError
  | inr None => parse_entry j v = inr None
  | inr (Some it) => parse_entry j v = inr (Some (HotItem j (title it) (url it)))
                     ∧ rank it = i
  end.
Proof.
  unfold parse_entry. destruct v as [| | | | | |d]; try done.
  destruct (or_ _ _) as [| | | |t| |]; try done.
  by destruct (decide (strip t = "")).
Qed.



Lemma parse_entries_malformed (raw : list value) :
  ∀ (i : Z) (items : list hot_item),
  Exists (λ v, parse_entry 0 v = inl AttributeError) raw →
  parse_entries i raw items = inl AttributeError.
Proof.
  induction raw as [|v raw IH]; intros i items Hex; [by apply Exists_nil in Hex|].
  simpl. pose proof (parse_entry_index i 0 v) as Hi.
  destruct (parse_entry i v) as [e|[it|]].
  - by destruct Hi as [-> _].
  - apply IH. apply Exists_cons in Hex as [Hv|]; [|done].
    destruct Hi as [Hi _]. congruence.
  - apply IH. apply Exists_cons in Hex as [Hv|]; [|done]. congruence.
Qed.

(** One entry of the embedded list that is not an object, or whose title
    is not a string, makes [parse_from_initial_state] raise; [get_top_n]
    passes the exception on and never tries the HTML strategy. *)
Theorem malformed_entry_escapes (html text : string) (data : value)
    (raw : list value) (n : Z) :
  fetch_html = inr html →
  search_initial_state html = Some text → loads text = Some data →
  dig data = Some raw →
  Exists (λ v, parse_entry 0 v = inl AttributeError) raw →
  parse_from_initial_state html = inl AttributeError
  ∧ get_top_n n = inl AttributeError.
Proof.
  intros Hfetch Hsearch Hloads Hdig Hex.
  assert (Hparse : parse_from_initial_state html = inl AttributeError).
  { unfold parse_from_initial_state. rewrite Hsearch, Hloads, Hdig.
    destruct raw as [|v raw]; [by apply Exists_nil in Hex|].
    by rewrite parse_entries_malformed. }
  split; [done|]. unfold get_top_n. by rewrite Hfetch, Hparse.
Qed.

End board_parsers.


Lemma malformed_entry_escapes_witness :
  @Baidu.parse_from_initial_state malformed_board "<html>" = inl AttributeError
  ∧ @Baidu.get_top_n malformed_board 10 = inl AttributeError.
Proof.
  apply (malformed_entry_escapes (H := malformed_board) "<html>" "{...}"
           (JDict [("items", JList [JInt 7])]) [JInt 7] 10);
    try reflexivity.
  left. reflexivity.
Defined.


(** ** What [save_items] stores *)
Section board_store.
Import MySQL Baidu Board.












End board_store.



(** ** More on the reconciler *)
Section reconciler_more.
Import MySQL Main Reconciler.

(** On a table that satisfies the unique key on [email], as [TABLE_SQL]
    declares it, the reconciler finds nothing: it sends its [SELECT],
    answers "No duplicates" and deletes no row. *)
Theorem cmd_dedupe_unique_emails (s : db) :
  uk_email s →
  cmd_dedupe s = Ok NoDuplicates (with_log s (log s ++ [SELECT_DUPLICATE_USERS])).
Proof.
  intros Huk. unfold cmd_dedupe, execute_query, send.
  unfold mbind, M_bind, mret, M_ret. simpl.
  assert (duplicate_users (test_users s) = []) as ->; [|done].
  unfold duplicate_users. rewrite filter_none; [done|].
  intros r Hr Hl. unfold loser in Hl. rewrite Exists_exists in Hl.
  destruct Hl as (t2 & Ht2 & Hem & Hgt).
  assert (r = t2) as -> by exact (key_inj user_email _ _ _ Huk Hr Ht2 Hem). lia.
Qed.

(** Consecutive pieces of length [c] make up the list. *)
Lemma chunks_concat (c : nat) (ids : list Z) (k : nat) :
  (0 < c)%nat → (length ids ≤ k * c)%nat →
  concat ((λ j : nat, take c (drop (j * c) ids)) <$> seq 0 k) = ids.
Proof.
  intros Hc. revert ids. induction k as [|k IH]; intros ids Hlen.
  - destruct ids; [done|simpl in Hlen; lia].
  - rewrite seq_S, fmap_app, concat_app. simpl. rewrite app_nil_r.
    destruct (decide (length ids ≤ k * c)%nat) as [Hle|Hgt].
    + rewrite IH by done. rewrite drop_ge by lia. by rewrite take_nil, app_nil_r.
    + transitivity (take (k * c) ids ++ drop (k * c) ids); [|apply take_drop]. f_equal.
      * rewrite <- (IH (take (k * c) ids)) by (rewrite length_take; lia).
        f_equal. apply list_fmap_ext. intros i j Hj.
        apply lookup_seq in Hj as [-> Hj]. simpl.
        replace (k * c)%nat with (i * c + (k - i) * c)%nat by nia.
        rewrite <- take_drop_commute, take_take. f_equal. nia.
      * apply take_ge. rewrite length_drop. simpl in Hlen. lia.
Qed.

Lemma batches_spec (chunk : Z) (ids : list Z) :
  0 < chunk →
  concat (batches chunk ids) = ids
  ∧ Forall (λ b, 0 < Z.of_nat (length b) ≤ chunk) (batches chunk ids)
  ∧ Z.of_nat (length (batches chunk ids))
    = (Z.of_nat (length ids) + chunk - 1) `div` chunk.
Proof.
  intros Hc. unfold batches. split_and!.
  - unfold range_step. rewrite <- list_fmap_compose.
    set (k := Z.to_nat ((Z.of_nat (length ids) + chunk - 1) `div` chunk)).
    etrans; [|apply (chunks_concat (Z.to_nat chunk) ids k)]; [|lia|].
    + f_equal. apply list_fmap_ext. intros _ j _. simpl. do 2 f_equal. lia.
    + unfold k.
      pose proof (Z.div_mod (Z.of_nat (length ids) + chunk - 1) chunk ltac:(lia)).
      pose proof (Z.mod_pos_bound (Z.of_nat (length ids) + chunk - 1) chunk Hc).
      assert (0 ≤ (Z.of_nat (length ids) + chunk - 1) `div` chunk)
        by (apply Z.div_pos; lia). nia.
  - apply Forall_fmap, Forall_forall. intros i Hi. simpl.
    apply range_step_bounds in Hi; [|done].
    rewrite length_take, length_drop. lia.
  - rewrite length_fmap. unfold range_step. rewrite length_fmap, length_seq.
    assert (0 ≤ (Z.of_nat (length ids) + chunk - 1) `div` chunk)
      by (apply Z.div_pos; lia). lia.
Qed.

Lemma delete_batches_log (chunk : Z) (ids : list Z) :
  0 < chunk →
  ∀ (starts : list Z) (s : db) (total : Z),
  Forall (λ i, 0 ≤ i < Z.of_nat (length ids)) starts →
  log (final (delete_batches chunk ids starts total s))
  = log s ++ (DELETE_USERS_IN <$>
               ((λ i, take (Z.to_nat chunk) (drop (Z.to_nat i) ids)) <$> starts)).
Proof.
  intros Hc. induction starts as [|i starts IH]; intros s total Hst.
  - simpl. by rewrite app_nil_r.
  - apply Forall_cons in Hst as [Hi Hst]. simpl.
    pose proof (batch_nonempty ids chunk i Hc Hi) as Hne.
    unfold execute_non_query, send. unfold mbind, M_bind, mret, M_ret. simpl.
    destruct (take (Z.to_nat chunk) (drop (Z.to_nat i) ids)) as [|b batch] eqn:Hb;
      [done|]. simpl.
    rewrite IH by done. simpl. by rewrite <- app_assoc.
Qed.

(** When there are duplicates, the reconciler sends its [SELECT] and then
    one [DELETE] per batch.  The batches cut the list of ids to delete into
    consecutive pieces: together they are that list, none is empty, none
    holds more than [CHUNK] ids, and their number is the length of the list
    divided by [CHUNK], rounded up. *)
Theorem cmd_dedupe_statements (s : db) :
  duplicate_users (test_users s) ≠ [] →
  log (final (cmd_dedupe s))
  = log s ++ SELECT_DUPLICATE_USERS
        :: (DELETE_USERS_IN <$> batches CHUNK (duplicate_users (test_users s)))
  ∧ concat (batches CHUNK (duplicate_users (test_users s)))
    = duplicate_users (test_users s)
  ∧ Forall (λ b, 0 < Z.of_nat (length b) ≤ CHUNK)
      (batches CHUNK (duplicate_users (test_users s)))
  ∧ Z.of_nat (length (batches CHUNK (duplicate_users (test_users s))))
    = (Z.of_nat (length (duplicate_users (test_users s))) + CHUNK - 1) `div` CHUNK.
Proof.
  intros Hne.
  destruct (batches_spec CHUNK (duplicate_users (test_users s)) ltac:(done))
    as (Hcat & Hall & Hlen).
  split_and!; [|done|done|done].
  unfold cmd_dedupe, execute_query, send.
  unfold mbind, M_bind, mret, M_ret. simpl.
  destruct (duplicate_users (test_users s)) as [|i ids] eqn:Hids; [done|].
  rewrite fmap_cons. rewrite <- fmap_cons.
  match goal with |- context [column ?rs "id" ?s1] =>
    change (column rs "id" s1) with
      (column ((λ i, {[ "id" := i ]}) <$> (i :: ids)) "id" s1);
    rewrite (column_ids (i :: ids) s1) end.
  match goal with |- context [delete_batches ?c ?l ?st ?tot ?s1] =>
    pose proof (delete_batches_log c l ltac:(done) st s1 tot) as Hlog;
    destruct (delete_batches c l st tot s1) as [n s'|e s'] end; simpl in *.
  - rewrite Hlog; [by rewrite <- app_assoc|].
    apply Forall_forall. intros j Hj. by apply range_step_bounds in Hj.
  - rewrite Hlog; [by rewrite <- app_assoc|].
    apply Forall_forall. intros j Hj. by apply range_step_bounds in Hj.
Qed.
End reconciler_more.

Lemma cmd_dedupe_unique_emails_witness :
  Main.cmd_dedupe seeded_users
  = Ok Main.NoDuplicates (with_log seeded_users [SELECT_DUPLICATE_USERS]).
Proof.
  apply (cmd_dedupe_unique_emails seeded_users).
  refine (bool_decide_unpack _ _). vm_compute. exact I.
Defined.

Lemma cmd_dedupe_statements_witness :
  log (final (Main.cmd_dedupe duplicated_users))
  = log duplicated_users
      ++ SELECT_DUPLICATE_USERS
         :: (DELETE_USERS_IN
               <$> Reconciler.batches Main.CHUNK
                     (MySQL.duplicate_users (test_users duplicated_users)))
  ∧ concat (Reconciler.batches Main.CHUNK
              (MySQL.duplicate_users (test_users duplicated_users)))
    = MySQL.duplicate_users (test_users duplicated_users)
  ∧ Forall (λ b, 0 < Z.of_nat (length b) ≤ Main.CHUNK)
      (Reconciler.batches Main.CHUNK
         (MySQL.duplicate_users (test_users duplicated_users)))
  ∧ Z.of_nat (length (Reconciler.batches Main.CHUNK
                        (MySQL.duplicate_users (test_users duplicated_users))))
    = (Z.of_nat (length (MySQL.duplicate_users (test_users duplicated_users)))
       + Main.CHUNK - 1) `div` Main.CHUNK.
Proof.
  apply (cmd_dedupe_statements duplicated_users).
  vm_compute. discriminate.
Defined.

(** ** The persistence loop of the movie scraper *)
Section pipeline.
Import MySQL Douban Crawl Pipeline.














End pipeline.




(** ** The commands of main.py on the rows of [test_users] *)
Section renumbering.
Import Admin.


Lemma set_id_same (r : user_row) : set_id r (user_id r) = r.
Proof. by destruct r. Qed.

(** The renumbering loop on the rows still to visit: they are in
    strictly ascending id order, unchanged, above the counter, and every
    visited row is at or below it. *)
Lemma renumber_spec (todo : list (nat * user_row)) :
  ∀ (c : Z) (cur : list user_row),
  StronglySorted id_lt todo →
  Forall (λ a, cur !! a.1 = Some a.2) todo →
  Forall (λ a, c < user_id a.2) todo →
  (∀ p r, cur !! p = Some r → p ∉ todo.*1 → user_id r ≤ c) →
  NoDup todo.*1 →
  ∃ l',
    renumber todo.*1 c cur = (inr l', c + Z.of_nat (length todo))
    ∧ length l' = length cur
    ∧ (∀ p, p ∉ todo.*1 → l' !! p = cur !! p)
    ∧ (∀ (j : nat) a, todo !! j = Some a →
         l' !! a.1 = Some (set_id a.2 (c + 1 + Z.of_nat j))).
Proof.
  induction todo as [|[p r] todo IH]; intros c cur Hs Hcur Hlt Hdone Hnd.
  - exists cur. simpl. split_and!; [f_equal; lia|done|done|done].
  - apply StronglySorted_inv in Hs as [Hs Hr].
    apply Forall_cons in Hcur as [Hp Hcur]. apply Forall_cons in Hlt as [Hc Hlt].
    rewrite fmap_cons in Hnd. apply NoDup_cons in Hnd as [Hfresh Hnd].
    simpl in Hp, Hc, Hfresh. rewrite fmap_cons. cbn [renumber fst]. rewrite Hp.
    assert (Hlt' : Forall (λ a, c + 1 < user_id a.2) todo).
    { eapply Forall_impl; [exact Hr|]. unfold id_lt. simpl. intros; lia. }
    destruct (decide (user_id r = c + 1)) as [Heq|Hne].
    + destruct (IH (c + 1) cur Hs Hcur Hlt') as (l' & Hrun & Hlen & Hout & Hin); [|done|].
      { intros q rq Hq Hnin. destruct (decide (q = p)) as [->|Hqp].
        - rewrite Hp in Hq. injection Hq as <-. lia.
        - assert (user_id rq ≤ c); [|lia]. apply (Hdone q rq Hq).
          rewrite fmap_cons, not_elem_of_cons. done. }
      exists l'. split_and!.
      * rewrite Hrun. f_equal. simpl length. lia.
      * done.
      * intros q Hq. rewrite ?fmap_cons, not_elem_of_cons in Hq. apply Hout. tauto.
      * intros [|j] a Ha; simpl in Ha.
        -- injection Ha as <-. simpl. rewrite Hout, Hp by done. f_equal.
           rewrite Z.add_0_r, <- Heq. by rewrite set_id_same.
        -- rewrite (Hin j a Ha). do 2 f_equal. lia.
    + assert (Hfree : c + 1 ∉ user_id <$> cur).
      { intros Hin. apply list_elem_of_fmap in Hin as (rq & Heq & Hrq).
        apply list_elem_of_lookup in Hrq as [q Hq].
        destruct (decide (q ∈ ((p, r) :: todo).*1)) as [Hin|Hnin].
        - rewrite fmap_cons in Hin. apply elem_of_cons in Hin as [->|Hin]; simpl in *.
          + rewrite Hp in Hq. injection Hq as <-. done.
          + apply list_elem_of_fmap in Hin as ([q' rq'] & -> & Hin). simpl in *.
            rewrite Forall_forall in Hcur, Hlt'.
            specialize (Hcur _ Hin). specialize (Hlt' _ Hin). simpl in *.
            rewrite Hcur in Hq. injection Hq as <-. lia.
        - specialize (Hdone q rq Hq Hnin). lia. }
      rewrite decide_False by done.
      assert (Hpl : (p < length cur)%nat) by by eapply lookup_lt_Some.
      destruct (IH (c + 1) (<[p:=set_id r (c + 1)]> cur) Hs)
        as (l' & Hrun & Hlen & Hout & Hin); [|done| |done|].
      { rewrite Forall_forall in Hcur |- *. intros [q rq] Hq. simpl.
        rewrite list_lookup_insert_ne; [by apply (Hcur _ Hq)|].
        intros ->. apply Hfresh. apply list_elem_of_fmap. by exists (q, rq). }
      { intros q rq Hq Hnin. destruct (decide (q = p)) as [->|Hqp].
        - rewrite list_lookup_insert_eq in Hq by done. injection Hq as <-. simpl. lia.
        - rewrite list_lookup_insert_ne in Hq by done.
          assert (user_id rq ≤ c); [|lia]. apply (Hdone q rq Hq).
          rewrite fmap_cons, not_elem_of_cons. done. }
      exists l'. split_and!.
      * rewrite Hrun. f_equal. simpl length. lia.
      * by rewrite Hlen, length_insert.
      * intros q Hq. rewrite ?fmap_cons, not_elem_of_cons in Hq. simpl in Hq.
        rewrite Hout by tauto. apply list_lookup_insert_ne. intros ->. tauto.
      * intros [|j] a Ha; simpl in Ha.
        -- injection Ha as <-. simpl. rewrite Hout by done.
           rewrite list_lookup_insert_eq by done. by rewrite Z.add_0_r.
        -- rewrite (Hin j a Ha). do 2 f_equal. lia.
Qed.
End renumbering.

Section reindex.
Import Admin.


Lemma positions_imap (l : list user_row) : (imap pair l).*1 = seq 0 (length l).
Proof.
  rewrite fmap_imap, <- (list_fmap_id (seq 0 (length l))), <- (imap_seq_0 l id).
  apply imap_ext. by intros.
Qed.

Lemma elem_of_imap_pair (l : list user_row) (p : nat) (r : user_row) :
  (p, r) ∈ imap pair l ↔ l !! p = Some r.
Proof.
  rewrite elem_of_lookup_imap. split.
  - by intros (i & y & [= -> ->] & ?).
  - intros Hp. by exists p, r.
Qed.

(** The visiting order of the renumbering. *)
Lemma by_id_spec (l : list user_row) :
  NoDup (user_id <$> l) →
  let sorted := merge_sort id_le (imap pair l) in
  (∀ p r, (p, r) ∈ sorted ↔ l !! p = Some r)
  ∧ NoDup sorted.*1
  ∧ length sorted = length l
  ∧ StronglySorted id_lt sorted.
Proof.
  intros Hnd sorted.
  assert (Hperm : sorted ≡ₚ imap pair l) by apply merge_sort_Permutation.
  assert (Hmem : ∀ p r, (p, r) ∈ sorted ↔ l !! p = Some r).
  { intros p r. unfold sorted. by rewrite merge_sort_Permutation, elem_of_imap_pair. }
  assert (Hpos : NoDup sorted.*1).
  { rewrite Hperm, positions_imap. apply NoDup_seq. }
  split_and!; [done|done|by rewrite Hperm, length_imap|].
  assert (Hs : StronglySorted id_le sorted) by (apply StronglySorted_merge_sort; apply _).
  assert (Hfwd : ∀ p r, (p, r) ∈ sorted → l !! p = Some r) by (intros; by apply Hmem).
  clearbody sorted. clear Hperm Hmem.
  induction Hs as [|a sorted Hs IH Ha]; [constructor|].
  rewrite fmap_cons in Hpos. apply NoDup_cons in Hpos as [Hfresh Hpos].
  constructor.
  - apply IH; [done|]. intros p r Hin. apply Hfwd. by right.
  - rewrite Forall_forall in Ha |- *. intros b Hb. specialize (Ha b Hb).
    unfold id_le in Ha. unfold id_lt.
    destruct (decide (user_id a.2 = user_id b.2)) as [Heq|Hne]; [|lia].
    destruct a as [p r], b as [q r']. simpl in *.
    assert (Hp : l !! p = Some r) by (apply Hfwd; left).
    assert (Hq : l !! q = Some r') by (apply Hfwd; by right).
    assert (p = q) as ->.
    { eapply NoDup_lookup; [exact Hnd| |].
      - rewrite list_lookup_fmap, Hp. simpl. reflexivity.
      - rewrite list_lookup_fmap, Hq. simpl. by rewrite Heq. }
    destruct Hfresh. apply list_elem_of_fmap. by exists (q, r').
Qed.

Lemma sorted_ids_grow (todo : list (nat * user_row)) (c : Z) :
  StronglySorted id_lt todo → Forall (λ a, c < user_id a.2) todo →
  ∀ (j : nat) a, todo !! j = Some a → c + 1 + Z.of_nat j ≤ user_id a.2.
Proof.
  revert c. induction todo as [|b todo IH]; intros c Hs Hc j a Ha; [done|].
  apply StronglySorted_inv in Hs as [Hs Hb]. apply Forall_cons in Hc as [Hcb Hc].
  destruct j as [|j]; simpl in Ha.
  - injection Ha as <-. lia.
  - assert (c + 1 + 1 + Z.of_nat j ≤ user_id a.2); [|lia].
    apply (IH (c + 1) Hs); [|done].
    eapply Forall_impl; [exact Hb|]. unfold id_lt. simpl. intros; lia.
Qed.

(** The counter after [ALTER TABLE] on ids that reach [n]. *)
Lemma next_id_spec (l : list user_row) (n : Z) :
  0 ≤ n → Forall (λ r, user_id r ≤ n) l →
  (n = 0 ∨ ∃ r, r ∈ l ∧ user_id r = n) →
  next_id l = n + 1.
Proof.
  intros Hn Hall Hmax.
  assert (Hle : next_id l ≤ n + 1).
  { clear Hmax. induction Hall as [|r l Hr _ IH]; simpl; lia. }
  assert (Hge : 1 ≤ next_id l ∧ ∀ r, r ∈ l → user_id r + 1 ≤ next_id l).
  { clear. induction l as [|x l [IH1 IH2]]; simpl.
    - split; [lia|]. by intros r ?%elem_of_nil.
    - split; [lia|]. intros r [->|Hr]%elem_of_cons; [lia|]. specialize (IH2 r Hr). lia. }
  destruct Hge as [H1 Hge]. destruct Hmax as [->|(r & Hr & <-)]; [lia|].
  specialize (Hge r Hr). lia.
Qed.

(** The renumbering of a table with distinct ids from 1 on. *)
Lemma renumber_by_id (l : list user_row) :
  NoDup (user_id <$> l) → Forall (λ r, 1 ≤ user_id r) l →
  ∃ l',
    renumber (by_id l) 0 l = (inr l', Z.of_nat (length l))
    ∧ length l' = length l
    ∧ (∀ p r, l !! p = Some r →
         ∃ i, l' !! p = Some (set_id r i) ∧ 1 ≤ i ≤ user_id r
              ∧ i ≤ Z.of_nat (length l))
    ∧ NoDup (user_id <$> l')
    ∧ (∀ p q r1 r2 r1' r2',
         l !! p = Some r1 → l !! q = Some r2 →
         l' !! p = Some r1' → l' !! q = Some r2' →
         user_id r1 < user_id r2 → user_id r1' < user_id r2')
    ∧ next_id l' = Z.of_nat (length l) + 1.
Proof.
  intros Hnd Hpos.
  destruct (by_id_spec l Hnd) as (Hmem & Hnd' & Hlen & Hs).
  set (sorted := merge_sort id_le (imap pair l)) in *.
  assert (Hlow : Forall (λ a, 0 < user_id a.2) sorted).
  { apply Forall_forall. intros [p r] Hin. apply Hmem in Hin. simpl.
    rewrite Forall_forall in Hpos.
    assert (1 ≤ user_id r); [|lia]. apply Hpos. by eapply list_elem_of_lookup_2. }
  destruct (renumber_spec sorted 0 l Hs) as (l' & Hrun & Hlen' & _ & Hin);
    [| done | | done |].
  { apply Forall_forall. intros [p r] Hpr. by apply Hmem. }
  { intros p r Hp Hnin. destruct Hnin. apply list_elem_of_fmap. exists (p, r).
    split; [done|]. by apply Hmem. }
  assert (Hnew : ∀ p r, l !! p = Some r →
            ∃ j : nat, sorted !! j = Some (p, r)
                       ∧ l' !! p = Some (set_id r (1 + Z.of_nat j))).
  { intros p r Hp. apply Hmem in Hp. apply list_elem_of_lookup in Hp as [j Hj].
    exists j. split; [done|]. by apply (Hin j (p, r)). }
  exists l'. split_and!.
  - unfold by_id. fold sorted. rewrite Hrun, Hlen. done.
  - done.
  - intros p r Hp. destruct (Hnew p r Hp) as (j & Hj & Hl').
    exists (1 + Z.of_nat j). split_and!; [done|lia| |].
    + apply (sorted_ids_grow sorted 0 Hs Hlow j (p, r) Hj).
    + apply lookup_lt_Some in Hj. lia.
  - apply NoDup_alt. intros p q x Hp Hq.
    rewrite list_lookup_fmap in Hp, Hq.
    destruct (l' !! p) as [r1'|] eqn:Hp'; [|done].
    destruct (l' !! q) as [r2'|] eqn:Hq'; [|done].
    simpl in Hp, Hq. injection Hp as Hp. injection Hq as Hq.
    destruct (lookup_lt_is_Some_2 l p) as [r1 Hr1];
      [rewrite <- Hlen'; by eapply lookup_lt_Some|].
    destruct (lookup_lt_is_Some_2 l q) as [r2 Hr2];
      [rewrite <- Hlen'; by eapply lookup_lt_Some|].
    destruct (Hnew p r1 Hr1) as (j1 & Hj1 & Hl1).
    destruct (Hnew q r2 Hr2) as (j2 & Hj2 & Hl2).
    rewrite Hp' in Hl1. rewrite Hq' in Hl2.
    injection Hl1 as ->. injection Hl2 as ->. simpl in *.
    assert (j1 = j2) as -> by lia. congruence.
  - intros p q r1 r2 r1' r2' Hr1 Hr2 Hp' Hq' Hlt.
    destruct (Hnew p r1 Hr1) as (j1 & Hj1 & Hl1).
    destruct (Hnew q r2 Hr2) as (j2 & Hj2 & Hl2).
    rewrite Hp' in Hl1. rewrite Hq' in Hl2.
    injection Hl1 as ->. injection Hl2 as ->. simpl.
    destruct (decide (j1 < j2)%nat) as [|Hge]; [lia|].
    destruct (decide (j1 = j2)) as [->|Hne].
    + rewrite Hj1 in Hj2. injection Hj2 as _ ->. lia.
    + pose proof (StronglySorted_lookup id_lt sorted j2 j1 _ _ Hs Hj2 Hj1 ltac:(lia))
        as Hlt'. unfold id_lt in Hlt'. simpl in Hlt'. lia.
  - apply next_id_spec; [lia| |].
    + apply Forall_forall. intros r' Hr'. apply list_elem_of_lookup in Hr' as [p Hp'].
      destruct (lookup_lt_is_Some_2 l p) as [r Hr];
        [rewrite <- Hlen'; by eapply lookup_lt_Some|].
      destruct (Hnew p r Hr) as (j & Hj & Hl'). rewrite Hp' in Hl'.
      injection Hl' as ->. simpl. apply lookup_lt_Some in Hj. lia.
    + destruct (decide (length l = 0%nat)) as [H0|Hn0]; [left; lia|right].
      destruct (lookup_lt_is_Some_2 sorted (length l - 1)) as [[p r] Hj]; [lia|].
      destruct (Hin _ _ Hj) as []. simpl in *.
      exists (set_id r (0 + 1 + Z.of_nat (length l - 1))). split.
      * by eapply list_elem_of_lookup_2, (Hin _ (p, r)).
      * simpl. lia.
Qed.
End reindex.

Section commands.
Import Admin.

Lemma renumber_columns (l l' : list user_row) :
  length l' = length l →
  (∀ p r, l !! p = Some r → ∃ i, l' !! p = Some (set_id r i)) →
  user_email <$> l' = user_email <$> l
  ∧ user_name <$> l' = user_name <$> l
  ∧ user_created_at <$> l' = user_created_at <$> l.
Proof.
  intros Hlen Hcols.
  assert (∀ {B} (f : user_row → B), (∀ r i, f (set_id r i) = f r) → f <$> l' = f <$> l)
    as Hgen.
  { intros B f Hf. apply list_eq. intros p. rewrite !list_lookup_fmap.
    destruct (l !! p) as [r|] eqn:Hp.
    - destruct (Hcols p r Hp) as (i & ->). simpl. by rewrite Hf.
    - apply lookup_ge_None in Hp. rewrite lookup_ge_None_2; [done|lia]. }
  split_and!; by apply Hgen.
Qed.

Lemma cmd_reindex_run (now : Z) (s : session) :
  NoDup (user_id <$> rows (users s)) →
  Forall (λ r, 1 ≤ user_id r) (rows (users s)) →
  ∃ s',
    cmd_reindex now s = Ok () s'
    ∧ length (rows (users s')) = length (rows (users s))
    ∧ (∀ p r, rows (users s) !! p = Some r →
         ∃ i, rows (users s') !! p = Some (set_id r i)
              ∧ 1 ≤ i ≤ user_id r ∧ i ≤ Z.of_nat (length (rows (users s))))
    ∧ NoDup (user_id <$> rows (users s'))
    ∧ auto_increment (users s') = Z.of_nat (length (rows (users s))) + 1.
Proof.
  intros Hnd Hpos.
  destruct (renumber_by_id (rows (users s)) Hnd Hpos)
    as (l' & Hrun & Hlen & Hcols & Hnd' & Hord & Hnext).
  unfold cmd_reindex, execute_non_query, send.
  unfold mbind, M_bind, mret, M_ret. simpl.
  destruct (rows (users s)) as [|r0 l0] eqn:Hrows.
  - simpl. eexists. split; [reflexivity|]. simpl. rewrite Hrows. simpl.
    split_and!; try done; try constructor.
  - rewrite Hrun. simpl. eexists. split; [reflexivity|]. simpl.
    split_and!; try done.
Qed.

(** On a table whose ids are distinct and start at 1 or above,
    [cmd_reindex] returns: every row keeps its place, name, email and
    creation time; the new ids are distinct and lie in 1..n for the n rows
    of the table, so they are contiguous; no id grows; rows keep the
    relative order of their ids; the counter becomes n + 1.  The command
    sends its three statements. *)
Theorem cmd_reindex_contiguous (now : Z) (s : session) :
  NoDup (user_id <$> rows (users s)) →
  Forall (λ r, 1 ≤ user_id r) (rows (users s)) →
  ∃ s',
    cmd_reindex now s = Ok () s'
    ∧ length (rows (users s')) = length (rows (users s))
    ∧ (∀ p r, rows (users s) !! p = Some r →
         ∃ i, rows (users s') !! p = Some (set_id r i)
              ∧ 1 ≤ i ≤ user_id r ∧ i ≤ Z.of_nat (length (rows (users s))))
    ∧ NoDup (user_id <$> rows (users s'))
    ∧ (∀ p q r1 r2 r1' r2',
         rows (users s) !! p = Some r1 → rows (users s) !! q = Some r2 →
         rows (users s') !! p = Some r1' → rows (users s') !! q = Some r2' →
         user_id r1 < user_id r2 → user_id r1' < user_id r2')
    ∧ auto_increment (users s') = Z.of_nat (length (rows (users s))) + 1
    ∧ sent s' = sent s ++ [SET_COUNT; UPDATE_IDS; ALTER_AUTO_INCREMENT].
Proof.
  intros Hnd Hpos.
  destruct (renumber_by_id (rows (users s)) Hnd Hpos)
    as (l' & Hrun & Hlen & Hcols & Hnd' & Hord & Hnext).
  unfold cmd_reindex, execute_non_query, send.
  unfold mbind, M_bind, mret, M_ret. simpl.
  destruct (rows (users s)) as [|r0 l0] eqn:Hrows.
  - simpl. eexists. split; [reflexivity|]. simpl. rewrite Hrows. simpl.
    split_and!; try done; try (by rewrite <- !app_assoc); try constructor.
  - rewrite Hrun. simpl. eexists. split; [reflexivity|]. simpl.
    split_and!; try done; try (by rewrite <- !app_assoc).
Qed.

(** Each statement but the renumbering keeps the constraints. *)
Lemma insert_user_sound (ignore : bool) (t : table user_row) (name email : string)
    (now : Z) (s : session) :
  sound (with_table s t) →
  sound (with_table s (insert_user ignore t name email now).2).
Proof.
  intros (Hem & Hid & Hrange & Hc). unfold sound in *. simpl in *.
  unfold insert_user. case_decide as Hdup; simpl.
  - split_and!; [done|done| |lia].
    eapply Forall_impl; [exact Hrange|]. simpl. intros; lia.
  - assert (Hemail : email ∉ user_email <$> rows t) by tauto.
    assert (Hfresh : auto_increment t ∉ user_id <$> rows t) by tauto. split_and!.
    + rewrite fmap_app. apply NoDup_app. split_and!; [done| |apply NoDup_singleton].
      intros x Hx Hx'. apply list_elem_of_singleton in Hx'. by subst.
    + rewrite fmap_app. apply NoDup_app. split_and!; [done| |apply NoDup_singleton].
      intros x Hx Hx'. apply list_elem_of_singleton in Hx'. by subst.
    + apply Forall_app. split.
      * eapply Forall_impl; [exact Hrange|]. simpl. intros; lia.
      * constructor; [simpl; lia|constructor].
    + lia.
Qed.

Lemma update_name_sound (t : table user_row) (name : string) (id : Z) (s : session) :
  sound (with_table s t) → sound (with_table s (update_name t name id).2).
Proof.
  intros (Hem & Hid & Hrange & Hc). unfold sound in *. simpl in *.
  rewrite <- !list_fmap_compose.
  assert (He : user_email <$> rows t
               = (user_email ∘ (λ r, if decide (user_id r = id)
                    then UserRow (user_id r) name (user_email r) (user_created_at r)
                    else r)) <$> rows t).
  { apply list_fmap_ext. intros _ r _. simpl. by case_decide. }
  assert (Hi : user_id <$> rows t
               = (user_id ∘ (λ r, if decide (user_id r = id)
                    then UserRow (user_id r) name (user_email r) (user_created_at r)
                    else r)) <$> rows t).
  { apply list_fmap_ext. intros _ r _. simpl. by case_decide. }
  rewrite <- He, <- Hi. split_and!; try done.
  apply Forall_fmap. eapply Forall_impl; [exact Hrange|]. simpl.
  intros r Hr. by case_decide.
Qed.

Lemma update_email_sound (t : table user_row) (email : string) (id : Z) (s : session) :
  sound (with_table s t) → sound (with_table s (update_email t email id).2).
Proof.
  intros (Hem & Hid & Hrange & Hc). unfold update_email.
  destruct (filter _ (rows t)) as [|r0 targets] eqn:Hf; [done|].
  case_decide as Hdup; [done|].
  assert (Hfree : email ∉ user_email <$> rows t) by tauto.
  unfold sound in *. simpl in *.
  set (f := λ r, if decide (user_id r = id)
                 then UserRow (user_id r) (user_name r) email (user_created_at r)
                 else r).
  assert (Hi : user_id <$> (f <$> rows t) = user_id <$> rows t).
  { rewrite <- list_fmap_compose. apply list_fmap_ext. intros _ r _. unfold f. simpl.
    by case_decide. }
  rewrite Hi. split_and!; try done.
  - apply NoDup_alt. intros p q x Hp Hq.
    rewrite <- list_fmap_compose, list_lookup_fmap in Hp, Hq.
    destruct (rows t !! p) as [rp|] eqn:Hrp; [|done].
    destruct (rows t !! q) as [rq|] eqn:Hrq; [|done].
    simpl in Hp, Hq. injection Hp as Hp. injection Hq as Hq.
    assert (Hin : ∀ r, r ∈ rows t → user_email r ≠ email).
    { intros r Hr Heq. apply Hfree. apply list_elem_of_fmap. eauto. }
    assert (Hkey : user_id rp = user_id rq).
    { unfold f in Hp, Hq.
      destruct (decide (user_id rp = id)) as [Hpi|Hpi],
               (decide (user_id rq = id)) as [Hqi|Hqi]; simpl in Hp, Hq.
      - congruence.
      - destruct (Hin rq); [by eapply list_elem_of_lookup_2|congruence].
      - destruct (Hin rp); [by eapply list_elem_of_lookup_2|congruence].
      - assert (p = q) as ->; [|congruence].
        eapply (NoDup_lookup (user_email <$> rows t)); [done| |];
          rewrite list_lookup_fmap.
        + rewrite Hrp. simpl. by rewrite Hp.
        + rewrite Hrq. simpl. by rewrite Hq. }
    eapply (NoDup_lookup (user_id <$> rows t)); [done| |]; rewrite list_lookup_fmap.
    + rewrite Hrp. reflexivity.
    + rewrite Hrq. simpl. by rewrite Hkey.
  - apply Forall_fmap. eapply Forall_impl; [exact Hrange|]. simpl.
    intros r Hr. unfold f. by case_decide.
Qed.
End commands.

Section dispatch.
Import Admin.

Lemma delete_user_sound (t : table user_row) (id : Z) (s : session) :
  sound (with_table s t) → sound (with_table s (delete_user t id).2).
Proof.
  intros (Hem & Hid & Hrange & Hc). unfold sound in *. simpl in *. split_and!.
  - eapply sublist_NoDup; [exact Hem|]. apply fmap_sublist, sublist_filter.
  - eapply sublist_NoDup; [exact Hid|]. apply fmap_sublist, sublist_filter.
  - apply Forall_forall. intros r Hr. apply list_elem_of_filter in Hr as [_ Hr].
    rewrite Forall_forall in Hrange. by apply Hrange.
  - done.
Qed.

Lemma sound_sent (s : session) (l : list stmt) (c : option Z) :
  sound s → sound (Session (users s) c l).
Proof. done. Qed.

(** A statement other than the renumbering keeps the constraints, however
    it ends. *)
Lemma send_sound (now : Z) (q : stmt) (s : session) :
  q ≠ UPDATE_IDS → sound s → sound (final (send now q s)).
Proof.
  intros Hq Hs. unfold send.
  destruct q as [name email|name email|name id|email id|id| | | |]; simpl; try done.
  - pose proof (insert_user_sound true (users s) name email now s Hs) as H.
    destruct (insert_user _ _ _ _ _) as [[e|o] t]; exact H.
  - pose proof (insert_user_sound false (users s) name email now s Hs) as H.
    destruct (insert_user _ _ _ _ _) as [[e|o] t]; exact H.
  - exact (update_name_sound (users s) name id s Hs).
  - pose proof (update_email_sound (users s) email id s Hs) as H.
    destruct (update_email _ _ _) as [[e|o] t]; exact H.
  - exact (delete_user_sound (users s) id s Hs).
  - destruct Hs as (Hem & Hid & Hrange & Hc). unfold sound. simpl. split_and!; try done.
    + apply Forall_forall. intros r Hr. rewrite Forall_forall in Hrange.
      specialize (Hrange r Hr). split; [lia|].
      assert (user_id r + 1 ≤ next_id (rows (users s))); [|lia].
      clear -Hr. induction (rows (users s)) as [|x l IH]; [by apply elem_of_nil in Hr|].
      simpl. apply elem_of_cons in Hr as [->|Hr]; [lia|]. specialize (IH Hr). lia.
    + clear. induction (rows (users s)) as [|x l IH]; simpl; lia.
Qed.

Lemma execute_many_loop_sound (now : Z) (qs : list stmt) :
  Forall (λ q, q ≠ UPDATE_IDS) qs →
  ∀ total s, sound s → sound (final (execute_many_loop now qs total s)).
Proof.
  induction 1 as [|q qs Hq _ IH]; intros total s Hs; [done|].
  simpl. unfold mbind, M_bind.
  pose proof (send_sound now q s Hq Hs) as H.
  destruct (send now q s) as [o s'|e s']; [by apply IH|done].
Qed.

Lemma cmd_reindex_sound (now : Z) (s : session) :
  sound s → sound (final (cmd_reindex now s)).
Proof.
  intros (Hem & Hid & Hrange & Hc).
  destruct (cmd_reindex_run now s) as (s' & -> & Hlen & Hcols & Hnd & Hnext); [done| |].
  { eapply Forall_impl; [exact Hrange|]. simpl. intros; lia. }
  simpl. unfold sound.
  destruct (renumber_columns (rows (users s)) (rows (users s')) Hlen) as (He & _).
  { intros p r Hp. destruct (Hcols p r Hp) as (i & ? & _). eauto. }
  rewrite He, Hnext. split_and!; [done|done| |lia].
  apply Forall_forall. intros r' Hr'. apply list_elem_of_lookup in Hr' as [p Hp'].
  destruct (lookup_lt_is_Some_2 (rows (users s)) p) as [r Hr];
    [rewrite <- Hlen; by eapply lookup_lt_Some|].
  destruct (Hcols p r Hr) as (i & Hi & ? & ?). rewrite Hp' in Hi.
  injection Hi as ->. simpl. lia.
Qed.

(** Whatever subcommand runs, and whether it returns or raises, the table
    still satisfies the unique key on [email] and the primary key, with
    ids from 1 on and below the counter. *)
Theorem main_keeps_constraints (now : Z) (cmd : command) (s : session) :
  sound s → sound (final (main now cmd s)).
Proof.
  intros Hs. destruct cmd as [|name email|id name|id email|id| |]; simpl;
    unfold mbind, M_bind.
  - unfold cmd_seed, mbind, M_bind, execute_many.
    assert (Hqs : Forall (λ q, q ≠ UPDATE_IDS)
                    ((λ u, INSERT_IGNORE_USER u.1 u.2) <$> SAMPLE_USERS)).
    { apply Forall_forall. intros q Hq.
      apply list_elem_of_fmap in Hq as (u & -> & _). discriminate. }
    pose proof (execute_many_loop_sound now _ Hqs 0 s Hs) as Hfin.
    destruct (execute_many_loop _ _ _ _) as [n s'|e s']; simpl in *; [done|].
    destruct Hs as (? & ? & ? & ?). by split_and!.
  - unfold cmd_insert. case_decide as Hblank; [done|].
    unfold execute_non_query, mbind, M_bind.
    pose proof (send_sound now (INSERT_USER name email) s ltac:(done) Hs) as Hfin.
    by destruct (send _ _ _).
  - unfold cmd_update_name, execute_non_query, mbind, M_bind.
    exact (send_sound now (UPDATE_NAME name id) s ltac:(done) Hs).
  - unfold cmd_update_email, execute_non_query, mbind, M_bind.
    pose proof (send_sound now (UPDATE_EMAIL email id) s ltac:(done) Hs) as Hfin.
    by destruct (send _ _ _).
  - unfold cmd_delete, execute_non_query, mbind, M_bind.
    exact (send_sound now (DELETE_USER id) s ltac:(done) Hs).
  - unfold cmd_count, execute_query, send, mbind, M_bind. simpl.
    by rewrite lookup_singleton_eq.
  - pose proof (cmd_reindex_sound now s Hs) as Hfin.
    by destruct (cmd_reindex now s).
Qed.
End dispatch.

Section row_commands.
Import Admin.




(** Giving a row the email of another row is refused with the
    duplicate-entry error, and the table is as it was. *)
Theorem cmd_update_email_refused (now : Z) (id : Z) (email : string) (s : session)
    (r : user_row) :
  sound s →
  r ∈ rows (users s) → user_id r = id → user_email r ≠ email →
  email ∈ user_email <$> rows (users s) →
  cmd_update_email now id email s
  = Raise (DatabaseError (IntegrityError ER_DUP_ENTRY))
      (Session (users s) (count s) (sent s ++ [UPDATE_EMAIL email id])).
Proof.
  intros Hs Hr Hid Hne Hin.
  unfold cmd_update_email, execute_non_query, send, mbind, M_bind. simpl.
  unfold update_email.
  destruct (filter _ (rows (users s))) as [|r0 targets] eqn:Hf.
  - assert (Hrf : r ∈ filter (λ r, user_id r = id ∧ user_email r ≠ email)
                        (rows (users s))) by by apply list_elem_of_filter.
    rewrite Hf in Hrf. by apply elem_of_nil in Hrf.
  - rewrite decide_True by (by left). by destruct (users s).
Qed.

(** [cmd_delete] removes the row of the given id and no other, reports 1
    when there was one and 0 otherwise, and leaves the counter; [cmd_count]
    then reports that many rows fewer. *)
Theorem cmd_delete_then_count (now : Z) (id : Z) (s : session) :
  sound s →
  ∃ s',
    cmd_delete now id s
    = Ok (if decide (id ∈ user_id <$> rows (users s)) then 1 else 0) s'
    ∧ rows (users s') = filter (λ r, user_id r ≠ id) (rows (users s))
    ∧ auto_increment (users s') = auto_increment (users s)
    ∧ ∃ s'',
        cmd_count now s'
        = Ok (Z.of_nat (length (rows (users s)))
              - if decide (id ∈ user_id <$> rows (users s)) then 1 else 0) s''
        ∧ users s'' = users s'.
Proof.
  intros (_ & Hid & _).
  assert (Hlen : Z.of_nat (length (rows (users s)))
                 - Z.of_nat (length (filter (λ r, user_id r ≠ id) (rows (users s))))
                 = if decide (id ∈ user_id <$> rows (users s)) then 1 else 0).
  { revert Hid. generalize (rows (users s)). intros l. induction l as [|x l IH]; intros Hnd.
    - by rewrite decide_False by (by intros ?%elem_of_nil).
    - rewrite fmap_cons in Hnd. apply NoDup_cons in Hnd as [Hx Hnd]. specialize (IH Hnd).
      rewrite filter_cons. destruct (decide (user_id x ≠ id)) as [Hne|Heq].
      + simpl length. rewrite !Nat2Z.inj_succ.
        destruct (decide (id ∈ user_id <$> l)) as [Hin|Hnin].
        * rewrite decide_True by (rewrite fmap_cons; by right). lia.
        * rewrite decide_False; [lia|]. rewrite fmap_cons, not_elem_of_cons. done.
      + assert (user_id x = id) as <- by (by destruct (decide (user_id x = id)); [|tauto]).
        rewrite decide_True by (rewrite fmap_cons; left).
        rewrite decide_False in IH by done. simpl length. lia. }
  unfold cmd_delete, cmd_count, execute_non_query, execute_query, send, mbind, M_bind.
  simpl. rewrite Hlen. eexists. split_and!; [reflexivity|done|done|].
  simpl. rewrite lookup_singleton_eq. eexists (Session _ _ _). split; [|reflexivity].
  unfold mret, M_ret. f_equal. lia.
Qed.
End row_commands.

Lemma gappy_session_sound : Admin.sound gappy_session.
Proof.
  unfold Admin.sound. simpl. split_and!; [| | |lia].
  - refine (bool_decide_unpack _ _). vm_compute. exact I.
  - refine (bool_decide_unpack _ _). vm_compute. exact I.
  - repeat constructor; simpl; lia.
Qed.

Lemma cmd_reindex_contiguous_witness :
  ∃ s',
    Admin.cmd_reindex 100 gappy_session = Admin.Ok () s'
    ∧ length (rows (Admin.users s')) = 3%nat
    ∧ (∀ p r, rows (Admin.users gappy_session) !! p = Some r →
         ∃ i, rows (Admin.users s') !! p = Some (Admin.set_id r i)
              ∧ 1 ≤ i ≤ user_id r ∧ i ≤ 3)
    ∧ NoDup (user_id <$> rows (Admin.users s'))
    ∧ (∀ p q r1 r2 r1' r2',
         rows (Admin.users gappy_session) !! p = Some r1 →
         rows (Admin.users gappy_session) !! q = Some r2 →
         rows (Admin.users s') !! p = Some r1' → rows (Admin.users s') !! q = Some r2' →
         user_id r1 < user_id r2 → user_id r1' < user_id r2')
    ∧ auto_increment (Admin.users s') = 4
    ∧ Admin.sent s' = [Admin.SET_COUNT; Admin.UPDATE_IDS; Admin.ALTER_AUTO_INCREMENT].
Proof.
  apply (cmd_reindex_contiguous 100 gappy_session).
  - refine (bool_decide_unpack _ _). vm_compute. exact I.
  - repeat constructor; simpl; lia.
Defined.

Example reindex_scenario :
  user_id <$> rows (Admin.users (Admin.final (Admin.cmd_reindex 100 gappy_session)))
  = [2; 1; 3].
Proof. vm_compute. reflexivity. Qed.

Lemma main_keeps_constraints_witness :
  Admin.sound (Admin.final (Admin.main 100 Admin.Reindex gappy_session))
  ∧ Admin.sound
      (Admin.final (Admin.main 100 (Admin.UpdateEmail 5 "dan@example.com") gappy_session)).
Proof.
  split.
  - exact (main_keeps_constraints 100 Admin.Reindex gappy_session gappy_session_sound).
  - exact (main_keeps_constraints 100 (Admin.UpdateEmail 5 "dan@example.com")
             gappy_session gappy_session_sound).
Defined.


Example insert_duplicate_scenario :
  Admin.cmd_insert 100 "Bob" "bob@example.com" gappy_session
  = Admin.Raise (Admin.DatabaseError (IntegrityError 1062))
      (Admin.Session (Table (rows (Admin.users gappy_session)) 11) None
         [Admin.INSERT_USER "Bob" "bob@example.com"]).
Proof. vm_compute. reflexivity. Qed.


Lemma cmd_update_email_refused_witness :
  Admin.cmd_update_email 100 5 "dan@example.com" gappy_session
  = Admin.Raise (Admin.DatabaseError (IntegrityError Admin.ER_DUP_ENTRY))
      (Admin.Session (Admin.users gappy_session) (Admin.count gappy_session)
         (Admin.sent gappy_session ++ [Admin.UPDATE_EMAIL "dan@example.com" 5])).
Proof.
  apply (cmd_update_email_refused 100 5 "dan@example.com" gappy_session
           (UserRow 5 "Bob Johnson" "bob@example.com" 30) gappy_session_sound).
  - left.
  - reflexivity.
  - discriminate.
  - refine (bool_decide_unpack _ _). vm_compute. exact I.
Defined.

Lemma cmd_delete_then_count_witness :
  ∃ s',
    Admin.cmd_delete 100 2 gappy_session
    = Admin.Ok (if decide (2 ∈ user_id <$> rows (Admin.users gappy_session)) then 1 else 0) s'
    ∧ rows (Admin.users s')
      = filter (λ r, user_id r ≠ 2) (rows (Admin.users gappy_session))
    ∧ auto_increment (Admin.users s') = auto_increment (Admin.users gappy_session)
    ∧ ∃ s'',
        Admin.cmd_count 100 s'
        = Admin.Ok (Z.of_nat (length (rows (Admin.users gappy_session)))
                    - if decide (2 ∈ user_id <$> rows (Admin.users gappy_session))
                      then 1 else 0) s''
        ∧ Admin.users s'' = Admin.users s'.
Proof. exact (cmd_delete_then_count 100 2 gappy_session gappy_session_sound). Defined.
